(** * A WebRTC signaling server: registry and message routing

    Shallow embedding of [src/index.js].  The server keeps one process-wide
    object, [connections], that maps a client-chosen identifier to the
    websocket connection registered under it, and reacts to three events of
    a connection: [message], [close] and [error].

    Conventions of the embedding.
    - A JavaScript string is a sequence of UTF-16 code units; [string] models
      that sequence with one element per code unit.  The program never looks
      inside a code unit, it only compares whole strings and takes prefixes.
    - A handler is a function of the registry that returns the registry it
      leaves behind, the calls it made on the outside world ([log],
      [connection.close()], [connection.sendUTF(...)]) in program order, and
      how it completed: normally, or abruptly with an exception that nothing
      in the program catches.
    - [JSON.parse] and [JSON.stringify] belong to the JavaScript runtime and
      are an interface ([JSON]) the development is parametric in. *)

From Stdlib Require Import String Ascii List Bool Arith NArith ZArith Lia.
From Stdlib Require Import DecimalString.
Import ListNotations.
Open Scope list_scope.
Open Scope string_scope.
Set Warnings "-register-all".

(** ** JavaScript values *)

(** The values [JSON.parse] can produce, and [undefined] (the value of a
    missing property).  A number is represented by the string that
    [Number.prototype.toString] gives for it, which determines the number up
    to the sign of zero. *)
Inductive value : Type :=
| VUndefined
| VNull
| VBool (b : bool)
| VNum (repr : string)
| VStr (s : string)
| VArr (elems : list value)
| VObj (props : list (string * value)).

Inductive exn : Type := SyntaxError | TypeError.

Inductive res (A : Type) : Type :=
| Ok (a : A)
| Err (e : exn).
Arguments Ok {A} a.
Arguments Err {A} e.

Fixpoint assoc {A : Type} (k : string) (l : list (string * A)) : option A :=
  match l with
  | [] => None
  | (k', a) :: rest => if String.eqb k' k then Some a else assoc k rest
  end.

Definition has_own {A : Type} (k : string) (l : list (string * A)) : bool :=
  match assoc k l with Some _ => true | None => false end.

(** The property names every plain object inherits from [Object.prototype].
    Each of them evaluates to a function, except [__proto__], which evaluates
    to the prototype object itself. *)
Definition Object_prototype : list string :=
  [ "constructor"; "__defineGetter__"; "__defineSetter__"; "hasOwnProperty";
    "__lookupGetter__"; "__lookupSetter__"; "isPrototypeOf";
    "propertyIsEnumerable"; "toString"; "valueOf"; "__proto__";
    "toLocaleString" ].

Definition inherited (k : string) : bool :=
  existsb (String.eqb k) Object_prototype.

(** [v.k] for the property names the program reads from decoded data
    ([type], [payload], [id], [source], [target]); none of them is defined on
    a built-in prototype, so the read yields an own property of an object and
    [undefined] on anything else.  (Reading a property of [null] or
    [undefined] raises; the callers below test for that before they read.) *)
Definition Get (v : value) (k : string) : value :=
  match v with
  | VObj props => match assoc k props with Some x => x | None => VUndefined end
  | _ => VUndefined
  end.

(** [ToBoolean]. *)
Definition ToBoolean (v : value) : bool :=
  match v with
  | VUndefined | VNull => false
  | VBool b => b
  | VNum repr => negb (String.eqb repr "0" || String.eqb repr "NaN")
  | VStr s => negb (String.eqb s "")
  | VArr _ | VObj _ => true
  end.

(** [ToString], which is also how a value used as [connections[v]] becomes a
    property key.  An array is joined with commas, [null] and [undefined]
    elements giving the empty string.  A plain object gives
    ["[object Object]"], unless it has an own [toString] property: decoded
    data is never callable, so the conversion finds no usable method and
    raises [TypeError]. *)
Fixpoint ToString (v : value) : res string :=
  match v with
  | VUndefined => Ok "undefined"
  | VNull => Ok "null"
  | VBool true => Ok "true"
  | VBool false => Ok "false"
  | VNum repr => Ok repr
  | VStr s => Ok s
  | VArr elems =>
      (fix join (first : bool) (l : list value) : res string :=
         match l with
         | [] => Ok ""
         | x :: rest =>
             let piece :=
               match x with
               | VUndefined | VNull => Ok ""
               | _ => ToString x
               end in
             match piece, join false rest with
             | Ok p, Ok r => Ok ((if first then "" else ",") ++ p ++ r)
             | Err e, _ => Err e
             | _, Err e => Err e
             end
         end) true elems
  | VObj props =>
      if has_own "toString" props then Err TypeError else Ok "[object Object]"
  end.

(** [v.slice(0, 5)]: strings and arrays have a [slice] method; on
    [undefined] and [null] the property read raises, on every other decoded
    value [slice] is not a function and the call raises. *)
Definition slice_0_5 (v : value) : res value :=
  match v with
  | VStr s => Ok (VStr (substring 0 5 s))
  | VArr elems => Ok (VArr (firstn 5 elems))
  | _ => Err TypeError
  end.

(** [Array.prototype.includes] on an array of strings: the searched value
    must be one of the strings. *)
Definition includes (l : list string) (v : value) : bool :=
  match v with
  | VStr s => existsb (String.eqb s) l
  | _ => false
  end.

Definition string_of_nat (n : nat) : string :=
  NilEmpty.string_of_uint (Nat.to_uint n).

(** ** The runtime's JSON object *)

Class JSON : Type := {
  (** [JSON.parse]: [None] when it raises [SyntaxError]. *)
  JSON_parse : string -> option value;
  JSON_stringify : value -> string
}.

(** ** Connections, the registry and the outside world *)

(** A connection object, compared by identity ([===]). *)
Definition conn : Type := nat.

(** The [connections] object: its own properties in the order
    [Object.entries] enumerates them. *)
Definition registry : Type := list (string * conn).

(** What [connections[key]] evaluates to. *)
Inductive slot : Type :=
| Conn (c : conn)
| Builtin
| Undefined.

Definition lookup (connections : registry) (key : string) : slot :=
  match assoc key connections with
  | Some c => Conn c
  | None => if inherited key then Builtin else Undefined
  end.

(** A key is an array index when it is the canonical decimal numeral of an
    integer below [2^32 - 1]; such keys are enumerated first, in ascending
    order, and the other keys follow in the order of their creation. *)
Definition is_digit (a : ascii) : bool :=
  let n := nat_of_ascii a in ((48 <=? n) && (n <=? 57))%nat.

Fixpoint digits_value (s : string) (acc : N) : option N :=
  match s with
  | EmptyString => Some acc
  | String a rest =>
      if is_digit a
      then digits_value rest (10 * acc + N.of_nat (nat_of_ascii a - 48))%N
      else None
  end.

Definition array_index (k : string) : option N :=
  match k with
  | EmptyString => None
  | String a rest =>
      if String.eqb k "0" then Some 0%N
      else if Ascii.eqb a "0" then None
      else match digits_value k 0%N with
           | Some n => if (n <? 4294967295)%N then Some n else None
           | None => None
           end
  end.

Fixpoint insert_index (n : N) (k : string) (c : conn) (props : registry)
  : registry :=
  match props with
  | [] => [(k, c)]
  | (k', c') :: rest =>
      match array_index k' with
      | Some n' =>
          if (n' <? n)%N then (k', c') :: insert_index n k c rest
          else (k, c) :: props
      | None => (k, c) :: props
      end
  end.

Fixpoint overwrite (k : string) (c : conn) (props : registry) : registry :=
  match props with
  | [] => []
  | (k', c') :: rest =>
      if String.eqb k' k then (k', c) :: rest
      else (k', c') :: overwrite k c rest
  end.

(** [connections[key] = connection]: an own property keeps its place, a new
    one takes the place its key gives it.  (The program assigns only where
    [connections[key]] is [undefined], so the setter that [Object.prototype]
    defines for [__proto__] is never involved.) *)
Definition assign (connections : registry) (key : string) (connection : conn)
  : registry :=
  if has_own key connections then overwrite key connection connections
  else match array_index key with
       | Some n => insert_index n key connection connections
       | None => (connections ++ [(key, connection)])%list
       end.

(** [delete connections[key]]. *)
Definition delete (connections : registry) (key : string) : registry :=
  filter (fun p => negb (String.eqb (fst p) key)) connections.

(** The calls a handler makes on its collaborators. *)
Inductive effect : Type :=
| Log (message : string)
| Close (c : conn)
| SendUTF (c : conn) (data : string).

Inductive completion : Type :=
| Normal
| Throw (e : exn).

Record result : Type := {
  registry_after : registry;
  effects : list effect;
  outcome : completion
}.

Definition finish (connections : registry) (out : list effect) : result :=
  {| registry_after := connections; effects := out; outcome := Normal |}.

Definition throw (e : exn) (connections : registry) (out : list effect)
  : result :=
  {| registry_after := connections; effects := out; outcome := Throw e |}.

(** ** The handlers of [src/index.js] *)

Definition VALID_MESSAGE_TYPES : list string := ["register"; "signal"].

(** A websocket message: [message.type] is ['utf8'] or ['binary']. *)
Inductive message : Type :=
| Utf8 (utf8Data : string)
| Binary (binaryData : list nat).

Definition handleRegisterMessage
  (connection : conn) (payload : value) (connections : registry) : result :=
  match slice_0_5 (Get payload "id") with
  | Err e => throw e connections []
  | Ok id =>
      match ToString id with
      | Err e => throw e connections []
      | Ok key =>
          match lookup connections key with
          | Undefined =>
              let connections' := assign connections key connection in
              let numberOfConnections := length connections' in
              finish connections'
                [Log ("Connection registered: " ++ key ++ " (total "
                      ++ string_of_nat numberOfConnections ++ ")")]
          | _ =>
              finish connections
                [Log ("Connection ID " ++ key
                      ++ " already exists. Closing connection.");
                 Close connection]
          end
      end
  end.

Definition error_response (target : string) : value :=
  VObj [("type", VStr "error");
        ("message", VStr ("Connection " ++ target ++ " unknown"))].

(** [null] and [undefined], out of which nothing can be destructured. *)
Definition nullish (v : value) : bool :=
  match v with
  | VUndefined | VNull => true
  | _ => false
  end.

Definition handleSignalMessage {J : JSON}
  (connection : conn) (payload : value) (connections : registry) : result :=
  if nullish payload then
    (* destructuring [{source, target}] out of [null] or [undefined] *)
    throw TypeError connections []
  else
  let source := Get payload "source" in
  let target := Get payload "target" in
  match ToString target with
  | Err e => throw e connections []
  | Ok target_key =>
      let targetConnection := lookup connections target_key in
      match ToString source with
      | Err e => throw e connections []
      | Ok source_key =>
          let sourceConnection := lookup connections source_key in
          match sourceConnection with
          | Conn c =>
              if Nat.eqb c connection then
                match targetConnection with
                | Undefined =>
                    let response := error_response target_key in
                    finish connections
                      [Log ("Connection " ++ target_key ++ " unknown");
                       SendUTF connection (JSON_stringify response)]
                | Conn t =>
                    finish connections [SendUTF t (JSON_stringify payload)]
                | Builtin =>
                    (* [targetConnection.sendUTF] is not a function *)
                    throw TypeError connections []
                end
              else
                finish connections
                  [Log "Incorrect source id. Closing connection.";
                   Close connection]
          | _ =>
              finish connections
                [Log "Incorrect source id. Closing connection.";
                 Close connection]
          end
      end
  end.

(** [messageHandlers[type]]. *)
Definition messageHandlers {J : JSON} (type : value)
  : option (conn -> value -> registry -> result) :=
  match type with
  | VStr "register" => Some handleRegisterMessage
  | VStr "signal" => Some handleSignalMessage
  | _ => None
  end.

Definition onMessage {J : JSON}
  (connection : conn) (message : message) (connections : registry) : result :=
  match message with
  | Binary _ => finish connections []
  | Utf8 utf8Data =>
      match JSON_parse utf8Data with
      | None => throw SyntaxError connections []
      | Some VNull | Some VUndefined =>
          (* destructuring [{type, payload}] out of [null] *)
          throw TypeError connections []
      | Some envelope =>
          let type := Get envelope "type" in
          let payload := Get envelope "payload" in
          if negb (includes VALID_MESSAGE_TYPES type) || negb (ToBoolean payload)
          then finish connections []
          else match messageHandlers type with
               | Some handler => handler connection payload connections
               | None => throw TypeError connections []
               end
      end
  end.

(** [Object.entries(connections).find(([, conn]) => conn === connection)],
    then the destructuring [const [id] = ...], which raises when [find]
    returned [undefined]. *)
Definition getIdFromConnection (connection : conn) (connections : registry)
  : res string :=
  match find (fun entry => Nat.eqb (snd entry) connection) connections with
  | Some (id, _) => Ok id
  | None => Err TypeError
  end.

Definition onClose
  (connection : conn) (reasonCode : nat) (description : string)
  (connections : registry) : result :=
  match getIdFromConnection connection connections with
  | Err e => throw e connections []
  | Ok id =>
      finish (delete connections id)
        [Log ("Connection " ++ id ++ " disconnected ("
              ++ string_of_nat reasonCode ++ ": " ++ description ++ ")")]
  end.

Definition onError (connection : conn) (connections : registry) : result :=
  match getIdFromConnection connection connections with
  | Err e => throw e connections []
  | Ok id => finish connections [Log ("Connection " ++ id ++ " error: ")]
  end.

(** ** Accepting connections *)

Definition protocol : string := "webrtc-custom-signaling".

(** [originIsAllowed(origin)]: [origin.startsWith] exists on strings only;
    on any other value the call raises. *)
Definition originIsAllowed (origin : value) : res bool :=
  match origin with
  | VStr o =>
      Ok (existsb (fun valid => String.prefix valid o)
            ["http://localhost"; "http://192.168";
             "https://webar-spectator.now.sh"])
  | _ => Err TypeError
  end.

(** What the request handler does with a request: [request.reject()],
    [request.accept(protocol, origin)], [log(message)] and
    [connection.on(event, handler)]. *)
Inductive request_action : Type :=
| Reject
| Accept (subprotocol : string) (origin : string)
| Announce (message : string)
| On (event_name : string).

(** The handler of the server's [request] event, as a function of
    [request.origin]. *)
Definition onRequest (origin : value) : list request_action * completion :=
  match originIsAllowed origin with
  | Err e => ([], Throw e)
  | Ok allowed =>
      let o := match origin with VStr o => o | _ => "" end in
      if allowed then
        ([Accept protocol o; Announce "Connection accepted.";
          On "message"; On "close"; On "error"], Normal)
      else
        ([Reject; Announce ("Connection rejected - bad origin: " ++ o)],
         Normal)
  end.

(** ** The server as a transition system *)

(** The events the transport delivers for an accepted connection. *)
Inductive event : Type :=
| EvMessage (c : conn) (m : message)
| EvClose (c : conn) (reasonCode : nat) (description : string)
| EvError (c : conn).

Definition source_of (ev : event) : conn :=
  match ev with
  | EvMessage c _ => c
  | EvClose c _ _ => c
  | EvError c => c
  end.

(** The registry, and the connections whose [close] event has been
    handled. *)
Record world : Type := {
  connections : registry;
  closed : list conn
}.

Definition start : world := {| connections := []; closed := [] |}.

Definition dispatch {J : JSON} (ev : event) (r : registry) : result :=
  match ev with
  | EvMessage c m => onMessage c m r
  | EvClose c reasonCode description => onClose c reasonCode description r
  | EvError c => onError c r
  end.

Definition is_closed (w : world) (c : conn) : bool :=
  existsb (Nat.eqb c) (closed w).

(** One event.  A connection whose transport has closed emits nothing more,
    and an exception that escapes a handler is caught by nobody and ends the
    process: in both cases there is no next state.  The calls a handler
    makes do not change the state: a connection on which the server called
    [close()] enters [closed] when its [close] event is handled. *)
Definition step {J : JSON} (w : world) (ev : event) : option world :=
  if is_closed w (source_of ev) then None
  else
    let r := dispatch ev (connections w) in
    match outcome r with
    | Throw _ => None
    | Normal =>
        Some {| connections := registry_after r;
                closed := match ev with
                          | EvClose c _ _ => c :: closed w
                          | _ => closed w
                          end |}
    end.

Fixpoint run {J : JSON} (w : world) (evs : list event) : option world :=
  match evs with
  | [] => Some w
  | ev :: rest =>
      match step w ev with
      | Some w' => run w' rest
      | None => None
      end
  end.

Definition reachable {J : JSON} (w : world) : Prop :=
  exists evs, run start evs = Some w.

(** No binding of the registry is that of a connection whose [close] event
    has been handled.  (A connection on which the server called [close()]
    is not in [closed] until its [close] event arrives.) *)
Definition live (w : world) : Prop :=
  forall id c, In (id, c) (connections w) -> is_closed w c = false.

(** The connection is bound under one identifier at most. *)
Definition single_binding (r : registry) (c : conn) : Prop :=
  forall id id', In (id, c) r -> In (id', c) r -> id = id'.

(** ** A JSON codec to run the server on concrete frames

    An instance of [JSON] for texts whose code units are below 256.  The
    decoder follows the JSON grammar.  A number literal is decoded to the
    number of the runtime nearest to it (a binary floating-point number
    with a 53-bit significand, ties to the even significand, infinity
    beyond the largest) and kept as the string [Number.prototype.toString]
    gives for that number.  An escape above [\u00FF] denotes a code unit
    that [string] does not hold: the decoder gives no value for a text with
    such an escape, where the runtime decodes it.  The theorems about the
    handlers hold for every instance of [JSON] and do not depend on this
    one; it serves to evaluate the handlers on frames as clients send them. *)
Module Codec.

Definition dquote : ascii := "034"%char.
Definition backslash : ascii := "092"%char.

Definition hex_digit (n : nat) : ascii :=
  ascii_of_nat (if Nat.ltb n 10 then 48 + n else 87 + n).

(** [JSON.stringify] of a string: quoted, with the escapes of the runtime. *)
Fixpoint escape (s : string) : string :=
  match s with
  | EmptyString => EmptyString
  | String c rest =>
      let n := nat_of_ascii c in
      (if Ascii.eqb c dquote then String backslash (String dquote EmptyString)
       else if Ascii.eqb c backslash
            then String backslash (String backslash EmptyString)
       else if Nat.eqb n 8 then "\b"
       else if Nat.eqb n 9 then "\t"
       else if Nat.eqb n 10 then "\n"
       else if Nat.eqb n 12 then "\f"
       else if Nat.eqb n 13 then "\r"
       else if Nat.ltb n 32
            then "\u00" ++ String (hex_digit (n / 16))
                             (String (hex_digit (n mod 16)) EmptyString)
       else String c EmptyString) ++ escape rest
  end.

Definition quote (s : string) : string :=
  String dquote (escape s ++ String dquote EmptyString).

Definition finite (repr : string) : bool :=
  negb (String.eqb repr "NaN" || String.eqb repr "Infinity"
        || String.eqb repr "-Infinity").

Fixpoint stringify (v : value) : string :=
  match v with
  | VUndefined | VNull => "null"
  | VBool true => "true"
  | VBool false => "false"
  | VNum repr => if finite repr then repr else "null"
  | VStr s => quote s
  | VArr elems =>
      "[" ++ (fix items (first : bool) (l : list value) : string :=
                match l with
                | [] => ""
                | x :: rest =>
                    (if first then "" else ",") ++ stringify x
                    ++ items false rest
                end) true elems ++ "]"
  | VObj props =>
      "{" ++ (fix members (first : bool) (l : list (string * value)) : string :=
                match l with
                | [] => ""
                | (k, VUndefined) :: rest => members first rest
                | (k, x) :: rest =>
                    (if first then "" else ",") ++ quote k ++ ":"
                    ++ stringify x ++ members false rest
                end) true props ++ "}"
  end.

Definition is_ws (c : ascii) : bool :=
  let n := nat_of_ascii c in
  Nat.eqb n 32 || Nat.eqb n 9 || Nat.eqb n 10 || Nat.eqb n 13.

Fixpoint skip_ws (s : string) : string :=
  match s with
  | String c rest => if is_ws c then skip_ws rest else s
  | EmptyString => s
  end.

Definition hex_value (c : ascii) : option nat :=
  let n := nat_of_ascii c in
  if (Nat.leb 48 n && Nat.leb n 57)%bool then Some (n - 48)
  else if (Nat.leb 97 n && Nat.leb n 102)%bool then Some (n - 87)
  else if (Nat.leb 65 n && Nat.leb n 70)%bool then Some (n - 55)
  else None.

Definition unescape (c : ascii) : option ascii :=
  if Ascii.eqb c dquote then Some dquote
  else if Ascii.eqb c backslash then Some backslash
  else if Ascii.eqb c "/" then Some "/"%char
  else if Ascii.eqb c "b" then Some (ascii_of_nat 8)
  else if Ascii.eqb c "f" then Some (ascii_of_nat 12)
  else if Ascii.eqb c "n" then Some (ascii_of_nat 10)
  else if Ascii.eqb c "r" then Some (ascii_of_nat 13)
  else if Ascii.eqb c "t" then Some (ascii_of_nat 9)
  else None.

Definition push (c : ascii) (r : option (string * string))
  : option (string * string) :=
  match r with
  | Some (s, rest) => Some (String c s, rest)
  | None => None
  end.

(** The characters of a string literal, after its opening quote. *)
Fixpoint parse_chars (s : string) : option (string * string) :=
  match s with
  | EmptyString => None
  | String c rest =>
      if Ascii.eqb c dquote then Some (EmptyString, rest)
      else if Ascii.eqb c backslash then
        match rest with
        | String e rest' =>
            match unescape e with
            | Some c' => push c' (parse_chars rest')
            | None =>
                if Ascii.eqb e "u" then
                  match rest' with
                  | String h1 (String h2 (String h3 (String h4 rest4))) =>
                      match hex_value h1, hex_value h2,
                            hex_value h3, hex_value h4 with
                      | Some 0, Some 0, Some a, Some b =>
                          push (ascii_of_nat (16 * a + b)) (parse_chars rest4)
                      | _, _, _, _ => None
                      end
                  | _ => None
                  end
                else None
            end
        | EmptyString => None
        end
      else if Nat.ltb (nat_of_ascii c) 32 then None
      else push c (parse_chars rest)
  end.

Fixpoint span_digits (s : string) : string * string :=
  match s with
  | String c rest =>
      if is_digit c
      then let (d, r) := span_digits rest in (String c d, r)
      else (EmptyString, s)
  | EmptyString => (EmptyString, s)
  end.

(** Numbers: from a literal to the string of the number it denotes. *)
Module Number.

Local Open Scope Z_scope.

Definition digits_of (n : Z) : string :=
  NilEmpty.string_of_uint (N.to_uint (Z.to_N n)).

Definition natural (digits : string) : Z :=
  match digits_value digits 0%N with
  | Some n => Z.of_N n
  | None => 0
  end.

(** [num / den >= base ^ k], for positive [num] and [den]. *)
Definition at_least (base num den k : Z) : bool :=
  if 0 <=? k then den * base ^ k <=? num
  else den <=? num * base ^ (- k).

(** The number nearest to [num / den] (both positive), ties to the even
    significand: [Some (m, p)] stands for [m * 2 ^ p], [None] for infinity. *)
Definition nearest (num den : Z) : option (Z * Z) :=
  let b := Z.log2 num - Z.log2 den in
  let l := if at_least 2 num den b then b else b - 1 in
  let p := Z.max (l - 52) (-1074) in
  let n := if 0 <=? p then num else num * 2 ^ (- p) in
  let d := if 0 <=? p then den * 2 ^ p else den in
  let q := n / d in
  let r := n mod d in
  let m :=
    if d <? 2 * r then q + 1
    else if (2 * r =? d) && negb (Z.even q) then q + 1
    else q in
  let (m, p) := if m =? 2 ^ 53 then (2 ^ 52, p + 1) else (m, p) in
  if 971 <? p then None else Some (m, p).

Fixpoint decade (fuel : nat) (num den n : Z) : Z :=
  match fuel with
  | O => n
  | S fuel' =>
      if at_least 10 num den n then decade fuel' num den (n + 1)
      else if at_least 10 num den (n - 1) then n
      else decade fuel' num den (n - 1)
  end.

Definition same (a b : option (Z * Z)) : bool :=
  match a, b with
  | Some (m, p), Some (m', p') => (m =? m') && (p =? p')
  | _, _ => false
  end.

(** The least number [k] of digits, up to [k + fuel], and the digits [s]
    with [s * 10 ^ (n - k)] nearest to the number [m * 2 ^ p] among those
    that denote it. *)
Fixpoint shortest (fuel : nat) (num den m p n k : Z) : Z * Z :=
  let sn := if 0 <=? k - n then num * 10 ^ (k - n) else num in
  let sd := if 0 <=? k - n then den else den * 10 ^ (n - k) in
  let low := sn / sd in
  let r := sn mod sd in
  let denotes (s : Z) :=
    same (if 0 <=? n - k then nearest (s * 10 ^ (n - k)) 1
          else nearest s (10 ^ (k - n))) (Some (m, p)) in
  let pick :=
    match denotes low, denotes (low + 1) with
    | true, true =>
        if 2 * r <? sd then Some low
        else if sd <? 2 * r then Some (low + 1)
        else if Z.even low then Some low else Some (low + 1)
    | true, false => Some low
    | false, true => Some (low + 1)
    | false, false => None
    end in
  match pick, fuel with
  | Some s, _ => (s, k)
  | None, O => (low, k)
  | None, S fuel' => shortest fuel' num den m p n (k + 1)
  end.

Fixpoint zeros (n : nat) : string :=
  match n with
  | O => ""
  | S n' => "0" ++ zeros n'
  end.

(** [Number::toString] of the positive number with digits [ds] and decimal
    point after the [n]-th digit. *)
Definition layout (ds : string) (n : Z) : string :=
  let k := Z.of_nat (String.length ds) in
  if (k <=? n) && (n <=? 21) then ds ++ zeros (Z.to_nat (n - k))
  else if (0 <? n) && (n <=? 21) then
    substring 0 (Z.to_nat n) ds ++ "."
    ++ substring (Z.to_nat n) (Z.to_nat (k - n)) ds
  else if (-6 <? n) && (n <=? 0) then "0." ++ zeros (Z.to_nat (- n)) ++ ds
  else
    let e := n - 1 in
    let es := (if e <? 0 then "-" else "+") ++ digits_of (Z.abs e) in
    if k =? 1 then ds ++ "e" ++ es
    else substring 0 1 ds ++ "."
         ++ substring 1 (Z.to_nat (k - 1)) ds ++ "e" ++ es.

Definition print (m p : Z) : string :=
  let num := if 0 <=? p then m * 2 ^ p else m in
  let den := if 0 <=? p then 1 else 2 ^ (- p) in
  let n := decade 8 num den ((Z.log2 num - Z.log2 den) * 30103 / 100000) in
  let (s, k) := shortest 16 num den m p n 1 in
  if s =? 10 ^ k then layout (digits_of (10 ^ (k - 1))) (n + 1)
  else layout (digits_of s) n.

(** The string of the number that a literal denotes: [negative], the digits
    before and after the point, and the exponent. *)
Definition of_literal (negative : bool) (int frac : string)
  (exp_negative : bool) (exp : string) : string :=
  let m := natural (int ++ frac) in
  let e := (if exp_negative then - natural exp else natural exp)
           - Z.of_nat (String.length frac) in
  let magnitude := Z.of_nat (String.length (digits_of m)) + e in
  let sign := if negative then "-" else "" in
  if m =? 0 then "0"
  else if 400 <? magnitude then sign ++ "Infinity"
  else if magnitude <? -400 then "0"
  else
    match (if 0 <=? e then nearest (m * 10 ^ e) 1
           else nearest m (10 ^ (- e))) with
    | None => sign ++ "Infinity"
    | Some (0, _) => "0"
    | Some (mant, p) => sign ++ print mant p
    end.

End Number.

Definition parse_number (s : string) : option (value * string) :=
  let (negative, s1) :=
    match s with
    | String "-"%char r => (true, r)
    | _ => (false, s)
    end in
  let (int, s2) :=
    match s1 with
    | String "0"%char r => ("0", r)
    | _ => span_digits s1
    end in
  if String.eqb int "" then None
  else
    let frac :=
      match s2 with
      | String "."%char r =>
          let (d, r') := span_digits r in
          if String.eqb d "" then None else Some (d, r')
      | _ => Some ("", s2)
      end in
    match frac with
    | None => None
    | Some (f, s3) =>
        let expo :=
          match s3 with
          | String e r =>
              if (Ascii.eqb e "e" || Ascii.eqb e "E")%bool then
                let (exp_negative, r1) :=
                  match r with
                  | String "+"%char r1 => (false, r1)
                  | String "-"%char r1 => (true, r1)
                  | _ => (false, r)
                  end in
                let (d, r2) := span_digits r1 in
                if String.eqb d "" then None
                else Some (exp_negative, d, r2)
              else Some (false, "0", s3)
          | EmptyString => Some (false, "0", s3)
          end in
        match expo with
        | None => None
        | Some (exp_negative, x, s4) =>
            Some (VNum (Number.of_literal negative int f exp_negative x), s4)
        end
    end.

(** Defining a property of an object that is being built: a repeated key
    keeps its place and takes the later value; a new key goes where the
    enumeration order puts it. *)
Fixpoint replace_prop (k : string) (v : value) (props : list (string * value))
  : list (string * value) :=
  match props with
  | [] => []
  | (k', v') :: rest =>
      if String.eqb k' k then (k', v) :: rest
      else (k', v') :: replace_prop k v rest
  end.

Fixpoint insert_prop (n : N) (k : string) (v : value)
  (props : list (string * value)) : list (string * value) :=
  match props with
  | [] => [(k, v)]
  | (k', v') :: rest =>
      match array_index k' with
      | Some n' =>
          if (n' <? n)%N then (k', v') :: insert_prop n k v rest
          else (k, v) :: props
      | None => (k, v) :: props
      end
  end.

Definition define_prop (props : list (string * value)) (k : string) (v : value)
  : list (string * value) :=
  if has_own k props then replace_prop k v props
  else match array_index k with
       | Some n => insert_prop n k v props
       | None => (props ++ [(k, v)])%list
       end.

Definition starts_with (p s : string) : option string :=
  if String.prefix p s
  then Some (substring (String.length p) (String.length s - String.length p) s)
  else None.

(** Recursive descent; [fuel] bounds the nesting and the number of elements,
    and [parse] below supplies the length of the text. *)
Fixpoint parse_value (fuel : nat) (s : string) : option (value * string) :=
  match fuel with
  | O => None
  | S fuel' =>
      match skip_ws s with
      | EmptyString => None
      | String c rest as s' =>
          if Ascii.eqb c "[" then
            match skip_ws rest with
            | String "]"%char r => Some (VArr [], r)
            | _ => parse_elements fuel' [] rest
            end
          else if Ascii.eqb c "{" then
            match skip_ws rest with
            | String "}"%char r => Some (VObj [], r)
            | _ => parse_members fuel' [] rest
            end
          else if Ascii.eqb c dquote then
            match parse_chars rest with
            | Some (str, r) => Some (VStr str, r)
            | None => None
            end
          else
            match starts_with "null" s', starts_with "true" s',
                  starts_with "false" s' with
            | Some r, _, _ => Some (VNull, r)
            | _, Some r, _ => Some (VBool true, r)
            | _, _, Some r => Some (VBool false, r)
            | None, None, None => parse_number s'
            end
      end
  end
with parse_elements (fuel : nat) (acc : list value) (s : string)
  : option (value * string) :=
  match fuel with
  | O => None
  | S fuel' =>
      match parse_value fuel' s with
      | None => None
      | Some (v, r) =>
          match skip_ws r with
          | String ","%char r' => parse_elements fuel' (acc ++ [v])%list r'
          | String "]"%char r' => Some (VArr (acc ++ [v])%list, r')
          | _ => None
          end
      end
  end
with parse_members (fuel : nat) (acc : list (string * value)) (s : string)
  : option (value * string) :=
  match fuel with
  | O => None
  | S fuel' =>
      match skip_ws s with
      | String c rest =>
          if Ascii.eqb c dquote then
            match parse_chars rest with
            | None => None
            | Some (k, r) =>
                match skip_ws r with
                | String ":"%char r1 =>
                    match parse_value fuel' r1 with
                    | None => None
                    | Some (v, r2) =>
                        match skip_ws r2 with
                        | String ","%char r3 =>
                            parse_members fuel' (define_prop acc k v) r3
                        | String "}"%char r3 =>
                            Some (VObj (define_prop acc k v), r3)
                        | _ => None
                        end
                    end
                | _ => None
                end
            end
          else None
      | EmptyString => None
      end
  end.

Definition parse (text : string) : option value :=
  match parse_value (S (String.length text)) text with
  | Some (v, rest) =>
      match skip_ws rest with
      | EmptyString => Some v
      | _ => None
      end
  | None => None
  end.

(** A frame written with single quotes standing for the double quotes of the
    JSON text. *)
Fixpoint json (s : string) : string :=
  match s with
  | EmptyString => EmptyString
  | String c rest => String (if Ascii.eqb c "'" then dquote else c) (json rest)
  end.

End Codec.

Definition codec : JSON :=
  {| JSON_parse := Codec.parse; JSON_stringify := Codec.stringify |}.

(** Frames as a client writes them. *)
Module Frame.

Definition register (id : string) : string :=
  Codec.json ("{'type':'register','payload':{'id':'" ++ id ++ "'}}").

Definition signal (source target : string) : string :=
  Codec.json ("{'type':'signal','payload':{'source':'" ++ source
              ++ "','target':'" ++ target ++ "','type':'offer'}}").

End Frame.

(** * Properties *)

(** ** Keys and prefixes *)

Lemma substring_0_5_length : forall s, String.length (substring 0 5 s) <= 5.
Proof.
  intros s.
  destruct s as [|a1 s]; simpl; [lia|].
  destruct s as [|a2 s]; simpl; [lia|].
  destruct s as [|a3 s]; simpl; [lia|].
  destruct s as [|a4 s]; simpl; [lia|].
  destruct s as [|a5 s]; simpl; [lia|].
  destruct s; simpl; lia.
Qed.

Lemma substring_0_5_short : forall s,
  String.length s <= 5 -> substring 0 5 s = s.
Proof.
  intros s.
  destruct s as [|a1 s]; simpl; [reflexivity|].
  destruct s as [|a2 s]; simpl; [reflexivity|].
  destruct s as [|a3 s]; simpl; [reflexivity|].
  destruct s as [|a4 s]; simpl; [reflexivity|].
  destruct s as [|a5 s]; simpl; [reflexivity|].
  destruct s; simpl; [reflexivity | lia].
Qed.

(** No name inherited from [Object.prototype] fits in five code units. *)
Lemma short_key_not_inherited : forall k,
  String.length k <= 5 -> inherited k = false.
Proof.
  intros k Hk.
  destruct (inherited k) eqn:E; [|reflexivity].
  unfold inherited in E. apply existsb_exists in E.
  destruct E as [name [Hin Heq]]. apply String.eqb_eq in Heq. subst name.
  unfold Object_prototype in Hin. simpl in Hin.
  repeat (destruct Hin as [Hin | Hin]; [subst k; simpl in Hk; lia|]).
  contradiction.
Qed.

Lemma lookup_own : forall connections key c,
  assoc key connections = Some c -> lookup connections key = Conn c.
Proof. intros connections key c H. unfold lookup. rewrite H. reflexivity. Qed.

Lemma lookup_short_free : forall connections key,
  String.length key <= 5 -> assoc key connections = None ->
  lookup connections key = Undefined.
Proof.
  intros connections key Hlen H. unfold lookup. rewrite H.
  rewrite short_key_not_inherited by assumption. reflexivity.
Qed.

Lemma lookup_undefined_free : forall connections key,
  lookup connections key = Undefined -> assoc key connections = None.
Proof.
  intros connections key. unfold lookup.
  destruct (assoc key connections); [discriminate|reflexivity].
Qed.

(** ** The registry as a list of bindings *)

Lemma assoc_In : forall (l : registry) k c, assoc k l = Some c -> In (k, c) l.
Proof.
  induction l as [|[k' c'] l IH]; simpl; intros k c H; [discriminate|].
  destruct (String.eqb k' k) eqn:E.
  - apply String.eqb_eq in E. inversion H. subst. left. reflexivity.
  - right. apply IH. exact H.
Qed.

Lemma assoc_None_key : forall (l : registry) k,
  assoc k l = None -> ~ In k (map fst l).
Proof.
  induction l as [|[k' c'] l IH]; simpl; intros k H; [tauto|].
  destruct (String.eqb k' k) eqn:E; [discriminate|].
  apply String.eqb_neq in E. intros [Heq | Hin]; [congruence|].
  exact (IH k H Hin).
Qed.

Lemma NoDup_keys_assoc : forall (l : registry) k c,
  NoDup (map fst l) -> In (k, c) l -> assoc k l = Some c.
Proof.
  induction l as [|[k' c'] l IH]; simpl; intros k c Hnd Hin; [contradiction|].
  inversion Hnd as [|x xs Hnotin Hnd']; subst.
  destruct Hin as [Heq | Hin].
  - inversion Heq; subst. rewrite String.eqb_refl. reflexivity.
  - destruct (String.eqb k' k) eqn:E.
    + apply String.eqb_eq in E. subst k'. exfalso. apply Hnotin.
      change k with (fst (k, c)). apply in_map. exact Hin.
    + apply IH; assumption.
Qed.

Lemma keys_insert_index : forall n k c l x,
  In x (map fst (insert_index n k c l)) <-> x = k \/ In x (map fst l).
Proof.
  induction l as [|[k' c'] l IH]; simpl; intros x.
  - intuition.
  - destruct (array_index k') as [n'|]; [destruct (n' <? n)%N|]; simpl;
      try rewrite IH; intuition.
Qed.

Lemma NoDup_insert_index : forall n k c l,
  ~ In k (map fst l) -> NoDup (map fst l) ->
  NoDup (map fst (insert_index n k c l)).
Proof.
  induction l as [|[k' c'] l IH]; simpl; intros Hk Hnd.
  - constructor; [tauto | constructor].
  - inversion Hnd as [|x xs Hnotin Hnd']; subst.
    assert (Hfront : NoDup (k :: k' :: map fst l)) by (constructor; assumption).
    destruct (array_index k') as [n'|]; [destruct (n' <? n)%N|]; simpl;
      try exact Hfront.
    constructor.
    + rewrite keys_insert_index. intuition.
    + apply IH; [tauto | assumption].
Qed.

Lemma NoDup_snoc : forall (l : list string) k,
  ~ In k l -> NoDup l -> NoDup (l ++ [k])%list.
Proof.
  induction l as [|x l IH]; simpl; intros k Hk Hnd.
  - constructor; [tauto | constructor].
  - inversion Hnd as [|y ys Hnotin Hnd']; subst.
    constructor.
    + rewrite in_app_iff. simpl. intuition.
    + apply IH; [tauto | assumption].
Qed.

Lemma NoDup_assign : forall (connections : registry) key connection,
  assoc key connections = None -> NoDup (map fst connections) ->
  NoDup (map fst (assign connections key connection)).
Proof.
  intros connections key connection Hfree Hnd.
  pose proof (assoc_None_key _ _ Hfree) as Hnotin.
  unfold assign, has_own. rewrite Hfree.
  destruct (array_index key) as [n|].
  - apply NoDup_insert_index; assumption.
  - rewrite map_app. simpl. apply NoDup_snoc; assumption.
Qed.

Lemma keys_delete : forall (r : registry) key x,
  In x (map fst (delete r key)) -> In x (map fst r).
Proof.
  induction r as [|[k c] l IH]; simpl; intros key x H; [exact H|].
  destruct (String.eqb k key); simpl in H.
  - right. exact (IH key x H).
  - destruct H as [H | H]; [left; exact H | right; exact (IH key x H)].
Qed.

Lemma NoDup_delete : forall (r : registry) key,
  NoDup (map fst r) -> NoDup (map fst (delete r key)).
Proof.
  induction r as [|[k c] l IH]; simpl; intros key Hnd; [exact Hnd|].
  inversion Hnd as [|y ys Hnotin Hnd']; subst.
  destruct (String.eqb k key); simpl.
  - apply IH. exact Hnd'.
  - constructor.
    + intros Hin. apply Hnotin. exact (keys_delete l key k Hin).
    + apply IH. exact Hnd'.
Qed.

Lemma assoc_delete_eq : forall (r : registry) key,
  assoc key (delete r key) = None.
Proof.
  induction r as [|[k c] l IH]; simpl; intros key; [reflexivity|].
  destruct (String.eqb k key) eqn:E; simpl.
  - apply IH.
  - rewrite E. apply IH.
Qed.

Lemma assoc_delete_ne : forall (r : registry) key k,
  k <> key -> assoc k (delete r key) = assoc k r.
Proof.
  induction r as [|[k' c] l IH]; simpl; intros key k Hne;
    [reflexivity|].
  destruct (String.eqb k' key) eqn:E; simpl.
  - apply String.eqb_eq in E. subst k'.
    destruct (String.eqb key k) eqn:E'.
    + apply String.eqb_eq in E'. congruence.
    + apply IH. exact Hne.
  - destruct (String.eqb k' k); [reflexivity | apply IH; exact Hne].
Qed.

Lemma assoc_insert_index : forall n key connection (l : registry) k,
  assoc key l = None ->
  assoc k (insert_index n key connection l)
  = if String.eqb key k then Some connection else assoc k l.
Proof.
  induction l as [|[k' c'] l IH]; simpl; intros k Hfree.
  - reflexivity.
  - destruct (String.eqb k' key) eqn:E0; [discriminate|].
    destruct (array_index k') as [n'|]; [destruct (n' <? n)%N|]; simpl;
      try reflexivity.
    rewrite IH by assumption.
    destruct (String.eqb k' k) eqn:E1; destruct (String.eqb key k) eqn:E2;
      try reflexivity.
    apply String.eqb_eq in E1. apply String.eqb_eq in E2.
    apply String.eqb_neq in E0. congruence.
Qed.

Lemma assoc_snoc : forall key connection (l : registry) k,
  assoc key l = None ->
  assoc k (l ++ [(key, connection)])%list
  = if String.eqb key k then Some connection else assoc k l.
Proof.
  induction l as [|[k' c'] l IH]; simpl; intros k Hfree.
  - reflexivity.
  - destruct (String.eqb k' key) eqn:E0; [discriminate|].
    rewrite IH by assumption.
    destruct (String.eqb k' k) eqn:E1; destruct (String.eqb key k) eqn:E2;
      try reflexivity.
    apply String.eqb_eq in E1. apply String.eqb_eq in E2.
    apply String.eqb_neq in E0. congruence.
Qed.

(** Reading the registry after [connections[key] = connection] on a free
    key. *)
Lemma assoc_assign : forall (connections : registry) key connection k,
  assoc key connections = None ->
  assoc k (assign connections key connection)
  = if String.eqb key k then Some connection else assoc k connections.
Proof.
  intros connections key connection k Hfree.
  unfold assign, has_own. rewrite Hfree.
  destruct (array_index key) as [n|].
  - apply assoc_insert_index. exact Hfree.
  - apply assoc_snoc. exact Hfree.
Qed.

(** A value that has a string property is an object. *)
Lemma string_property_not_nullish : forall payload k s,
  Get payload k = VStr s -> nullish payload = false.
Proof.
  intros payload k s H. destruct payload; simpl in *;
    try discriminate; reflexivity.
Qed.

(** ** What each handler does to the registry *)

Ltac case_handler :=
  repeat match goal with
         | |- context [match ?x with _ => _ end] => destruct x eqn:?; simpl
         | |- context [if ?b then _ else _] => destruct b eqn:?; simpl
         end.

Lemma handleRegisterMessage_registry : forall connection payload r,
  registry_after (handleRegisterMessage connection payload r) = r \/
  exists key,
    assoc key r = None /\
    registry_after (handleRegisterMessage connection payload r)
    = assign r key connection.
Proof.
  intros connection payload r. unfold handleRegisterMessage.
  destruct (slice_0_5 (Get payload "id")) as [id|e]; simpl; [|left; reflexivity].
  destruct (ToString id) as [key|e]; simpl; [|left; reflexivity].
  destruct (lookup r key) eqn:E; simpl; try (left; reflexivity).
  right. exists key. split; [|reflexivity].
  apply lookup_undefined_free. exact E.
Qed.

Lemma onClose_registry : forall connection reasonCode description r,
  registry_after (onClose connection reasonCode description r) = r \/
  exists id,
    registry_after (onClose connection reasonCode description r) = delete r id.
Proof.
  intros connection reasonCode description r. unfold onClose.
  destruct (getIdFromConnection connection r) as [id|e]; simpl.
  - right. exists id. reflexivity.
  - left. reflexivity.
Qed.

Lemma onError_registry : forall connection r,
  registry_after (onError connection r) = r.
Proof.
  intros connection r. unfold onError.
  destruct (getIdFromConnection connection r); reflexivity.
Qed.

Section Handlers.

Context {J : JSON}.

Lemma handleSignalMessage_registry : forall connection payload r,
  registry_after (handleSignalMessage connection payload r) = r.
Proof.
  intros connection payload r. unfold handleSignalMessage.
  case_handler; reflexivity.
Qed.

Lemma onMessage_registry : forall connection m r,
  registry_after (onMessage connection m r) = r \/
  exists key,
    assoc key r = None /\
    registry_after (onMessage connection m r) = assign r key connection.
Proof.
  intros connection m r. unfold onMessage.
  destruct m as [utf8Data|binaryData]; simpl; [|left; reflexivity].
  destruct (JSON_parse utf8Data) as [envelope|]; simpl; [|left; reflexivity].
  assert (Hdispatch :
    let type := Get envelope "type" in
    let payload := Get envelope "payload" in
    let res :=
      if negb (includes VALID_MESSAGE_TYPES type) || negb (ToBoolean payload)
      then finish r []
      else match messageHandlers type with
           | Some handler => handler connection payload r
           | None => throw TypeError r []
           end in
    registry_after res = r \/
    exists key,
      assoc key r = None /\ registry_after res = assign r key connection).
  { simpl.
    destruct (negb (includes VALID_MESSAGE_TYPES (Get envelope "type"))
              || negb (ToBoolean (Get envelope "payload"))); simpl;
      [left; reflexivity|].
    destruct (messageHandlers (Get envelope "type")) as [handler|] eqn:Eh;
      simpl; [|left; reflexivity].
    unfold messageHandlers in Eh.
    destruct (Get envelope "type") as [| |b|n|s|l|o]; try discriminate.
    destruct (String.eqb s "register") eqn:Er.
    - apply String.eqb_eq in Er. subst s. inversion Eh; subst handler.
      apply handleRegisterMessage_registry.
    - destruct (String.eqb s "signal") eqn:Es.
      + apply String.eqb_eq in Es. subst s. inversion Eh; subst handler.
        left. apply handleSignalMessage_registry.
      + exfalso. clear - Eh Er Es.
        apply String.eqb_neq in Er. apply String.eqb_neq in Es.
        repeat (destruct s as [|[[] [] [] [] [] [] [] []] s];
                try discriminate; try congruence). }
  simpl in Hdispatch.
  destruct envelope; simpl; try (left; reflexivity); exact Hdispatch.
Qed.

(** ** Invariant: one binding per identifier *)

Lemma step_NoDup : forall w ev w',
  step w ev = Some w' ->
  NoDup (map fst (connections w)) -> NoDup (map fst (connections w')).
Proof.
  intros w ev w' Hstep Hnd. unfold step in Hstep.
  destruct (is_closed w (source_of ev)); [discriminate|].
  destruct (outcome (dispatch ev (connections w))); [|discriminate].
  inversion Hstep; subst w'; clear Hstep. simpl.
  destruct ev as [c m|c reasonCode description|c]; simpl.
  - destruct (onMessage_registry c m (connections w)) as [E | [key [Hfree E]]];
      rewrite E; [assumption|].
    apply NoDup_assign; assumption.
  - destruct (onClose_registry c reasonCode description (connections w))
      as [E | [id E]]; rewrite E; [assumption|].
    apply NoDup_delete. assumption.
  - rewrite onError_registry. assumption.
Qed.

Lemma run_NoDup : forall evs w w',
  run w evs = Some w' ->
  NoDup (map fst (connections w)) -> NoDup (map fst (connections w')).
Proof.
  induction evs as [|ev evs IH]; simpl; intros w w' Hrun Hnd.
  - inversion Hrun; subst. assumption.
  - destruct (step w ev) as [w1|] eqn:Hstep; [|discriminate].
    apply (IH w1 w' Hrun). exact (step_NoDup w ev w1 Hstep Hnd).
Qed.

Lemma reachable_NoDup : forall w,
  reachable w -> NoDup (map fst (connections w)).
Proof.
  intros w [evs Hrun]. apply (run_NoDup evs start w Hrun).
  simpl. constructor.
Qed.

End Handlers.

(** ** Registration *)

(** A register message whose identifier is a string: the key is the first
    five code units. *)
Lemma register_key : forall payload id,
  Get payload "id" = VStr id ->
  slice_0_5 (Get payload "id") = Ok (VStr (substring 0 5 id)).
Proof. intros payload id H. rewrite H. reflexivity. Qed.

Lemma handleRegisterMessage_taken : forall connection payload id existing r,
  Get payload "id" = VStr id ->
  assoc (substring 0 5 id) r = Some existing ->
  handleRegisterMessage connection payload r =
  {| registry_after := r;
     effects := [Log ("Connection ID " ++ substring 0 5 id
                      ++ " already exists. Closing connection.");
                 Close connection];
     outcome := Normal |}.
Proof.
  intros connection payload id existing r Hid Hbound.
  unfold handleRegisterMessage. rewrite (register_key _ _ Hid). simpl.
  rewrite (lookup_own _ _ _ Hbound). reflexivity.
Qed.

Lemma handleRegisterMessage_free : forall connection payload id r,
  Get payload "id" = VStr id ->
  assoc (substring 0 5 id) r = None ->
  handleRegisterMessage connection payload r =
  {| registry_after := assign r (substring 0 5 id) connection;
     effects :=
       [Log ("Connection registered: " ++ substring 0 5 id ++ " (total "
             ++ string_of_nat
                  (length (assign r (substring 0 5 id) connection))
             ++ ")")];
     outcome := Normal |}.
Proof.
  intros connection payload id r Hid Hfree.
  unfold handleRegisterMessage. rewrite (register_key _ _ Hid). simpl.
  rewrite (lookup_short_free r _ (substring_0_5_length id) Hfree).
  reflexivity.
Qed.

Section Routing.

Context {J : JSON}.

(** C1.  In every state the server can reach, an identifier is bound to at
    most one connection.  And when a register message carries an identifier
    whose five-code-unit prefix is already a key of the registry, the handler
    logs the duplicate, closes the connection that sent the message, sends
    nothing to anybody, and returns the registry as it found it, so the
    existing registrant keeps its entry. *)
Theorem registration_unique_collision_closes : forall (w : world),
  reachable w ->
  (forall id a b,
     In (id, a) (connections w) -> In (id, b) (connections w) -> a = b) /\
  (forall connection payload id existing,
     Get payload "id" = VStr id ->
     assoc (substring 0 5 id) (connections w) = Some existing ->
     handleRegisterMessage connection payload (connections w) =
     {| registry_after := connections w;
        effects := [Log ("Connection ID " ++ substring 0 5 id
                         ++ " already exists. Closing connection.");
                    Close connection];
        outcome := Normal |}).
Proof.
  intros w Hreach. split.
  - intros id a b Ha Hb.
    pose proof (reachable_NoDup w Hreach) as Hnd.
    pose proof (NoDup_keys_assoc _ _ _ Hnd Ha) as Ea.
    pose proof (NoDup_keys_assoc _ _ _ Hnd Hb) as Eb.
    congruence.
  - intros connection payload id existing Hid Hbound.
    exact (handleRegisterMessage_taken _ _ _ _ _ Hid Hbound).
Qed.

(** C2.  When [A] is registered under [s] and [B] under [t], a signal
    message from [A] with source [s] and target [t] makes the handler send
    the serialization of the whole payload to [B], and do nothing else: no
    other connection is sent anything, nothing is closed, the registry is
    unchanged; in particular nothing goes back to [A] when [A] is not [B]. *)
Theorem signal_forwarded_to_target_only :
  forall (A B : conn) (s t : string) (payload : value) (r : registry),
  assoc s r = Some A ->
  assoc t r = Some B ->
  Get payload "source" = VStr s ->
  Get payload "target" = VStr t ->
  handleSignalMessage A payload r =
  {| registry_after := r;
     effects := [SendUTF B (JSON_stringify payload)];
     outcome := Normal |} /\
  (forall c data,
     In (SendUTF c data) (effects (handleSignalMessage A payload r)) ->
     c = B /\ data = JSON_stringify payload) /\
  (A <> B ->
   forall data,
     ~ In (SendUTF A data) (effects (handleSignalMessage A payload r))).
Proof.
  intros A B s t payload r HA HB Hs Ht.
  assert (E : handleSignalMessage A payload r =
              {| registry_after := r;
                 effects := [SendUTF B (JSON_stringify payload)];
                 outcome := Normal |}).
  { unfold handleSignalMessage.
    rewrite (string_property_not_nullish _ _ _ Hs), Hs, Ht. simpl.
    rewrite (lookup_own _ _ _ HA), (lookup_own _ _ _ HB).
    rewrite Nat.eqb_refl. reflexivity. }
  split; [exact E|]. rewrite E. simpl. split.
  - intros c data [H | []]. inversion H. split; reflexivity.
  - intros Hne data [H | []]. inversion H. congruence.
Qed.

(** A signal whose payload is an object (or any value other than [null]
    and [undefined]) and whose source and target have a string conversion:
    when the registry lookup of the source does not give the connection
    that sent it (the sender never registered, the source is bound to
    somebody else, or it is not bound at all), the handler logs, closes the
    sender, sends nothing and leaves the registry unchanged. *)
Lemma signal_wrong_source_closes_sender :
  forall (connection : conn) (payload : value) (r : registry)
         (source_key target_key : string),
  nullish payload = false ->
  ToString (Get payload "target") = Ok target_key ->
  ToString (Get payload "source") = Ok source_key ->
  lookup r source_key <> Conn connection ->
  handleSignalMessage connection payload r =
  {| registry_after := r;
     effects := [Log "Incorrect source id. Closing connection.";
                 Close connection];
     outcome := Normal |}.
Proof.
  intros connection payload r source_key target_key Hobj Ht Hs Hne.
  unfold handleSignalMessage. rewrite Hobj, Ht, Hs.
  destruct (lookup r source_key) as [c| |] eqn:E; try reflexivity.
  destruct (Nat.eqb c connection) eqn:Ec; [|reflexivity].
  apply Nat.eqb_eq in Ec. subst c. congruence.
Qed.

(** C10.  A connection that registers with an identifier of more than five
    code units, the prefix being free, is bound under the five-code-unit
    prefix (and the binding of the full identifier, if any, is what it was);
    a registration with exactly that prefix that follows, by whatever
    connection, is handled as a collision: that connection is closed and the
    registry keeps the first binding. *)
Theorem register_truncates_then_prefix_collides :
  forall (first second : conn) (payload payload' : value) (id : string)
         (r : registry),
  Get payload "id" = VStr id ->
  5 < String.length id ->
  assoc (substring 0 5 id) r = None ->
  Get payload' "id" = VStr (substring 0 5 id) ->
  let registered := handleRegisterMessage first payload r in
  outcome registered = Normal /\
  assoc (substring 0 5 id) (registry_after registered) = Some first /\
  assoc id (registry_after registered) = assoc id r /\
  handleRegisterMessage second payload' (registry_after registered) =
  {| registry_after := registry_after registered;
     effects := [Log ("Connection ID " ++ substring 0 5 id
                      ++ " already exists. Closing connection.");
                 Close second];
     outcome := Normal |}.
Proof.
  intros first second payload payload' id r Hid Hlong Hfree Hid' registered.
  subst registered. rewrite (handleRegisterMessage_free _ _ _ _ Hid Hfree).
  simpl.
  assert (Hbound : assoc (substring 0 5 id)
                     (assign r (substring 0 5 id) first) = Some first).
  { rewrite assoc_assign by assumption. rewrite String.eqb_refl. reflexivity. }
  split; [reflexivity|]. split; [exact Hbound|]. split.
  - rewrite assoc_assign by assumption.
    destruct (String.eqb (substring 0 5 id) id) eqn:E; [|reflexivity].
    apply String.eqb_eq in E.
    pose proof (substring_0_5_length id) as Hshort. rewrite E in Hshort. lia.
  - pose proof (handleRegisterMessage_taken second payload'
                  (substring 0 5 id) first
                  (assign r (substring 0 5 id) first) Hid') as Hcoll.
    rewrite (substring_0_5_short (substring 0 5 id)
               (substring_0_5_length id)) in Hcoll.
    exact (Hcoll Hbound).
Qed.

End Routing.

(** ** Signals to an unknown target *)

Section Signals.

Context {J : JSON}.

(** X13.  A target that is neither a key of the registry nor a name
    inherited from [Object.prototype] is reported to the sender: the handler
    logs, sends the sender the error envelope naming the target, closes
    nothing and leaves the registry unchanged. *)
Lemma handleSignalMessage_unknown_target :
  forall (connection : conn) (payload : value) (r : registry) (s t : string),
  assoc s r = Some connection ->
  Get payload "source" = VStr s ->
  Get payload "target" = VStr t ->
  assoc t r = None ->
  inherited t = false ->
  handleSignalMessage connection payload r =
  {| registry_after := r;
     effects := [Log ("Connection " ++ t ++ " unknown");
                 SendUTF connection (JSON_stringify (error_response t))];
     outcome := Normal |}.
Proof.
  intros connection payload r s t Hs Hsrc Htgt Ht Hinh.
  unfold handleSignalMessage.
  rewrite (string_property_not_nullish _ _ _ Hsrc), Hsrc, Htgt. simpl.
  rewrite (lookup_own _ _ _ Hs). rewrite Nat.eqb_refl.
  unfold lookup. rewrite Ht, Hinh. reflexivity.
Qed.

(** A target that is a name inherited from [Object.prototype] evaluates to a
    built-in that has no [sendUTF]: the call raises, and nothing is sent. *)
Lemma handleSignalMessage_inherited_target :
  forall (connection : conn) (payload : value) (r : registry) (s t : string),
  assoc s r = Some connection ->
  Get payload "source" = VStr s ->
  Get payload "target" = VStr t ->
  assoc t r = None ->
  inherited t = true ->
  handleSignalMessage connection payload r =
  {| registry_after := r; effects := []; outcome := Throw TypeError |}.
Proof.
  intros connection payload r s t Hs Hsrc Htgt Ht Hinh.
  unfold handleSignalMessage.
  rewrite (string_property_not_nullish _ _ _ Hsrc), Hsrc, Htgt. simpl.
  rewrite (lookup_own _ _ _ Hs). rewrite Nat.eqb_refl.
  unfold lookup. rewrite Ht, Hinh. reflexivity.
Qed.

(** ** Frames that are dropped, and frames that raise *)

Lemma onMessage_binary : forall connection binaryData r,
  onMessage connection (Binary binaryData) r = finish r [].
Proof. reflexivity. Qed.

(** X14.  A text frame that decodes to something other than [null] is
    dropped, with no effect, no change of the registry and no exception,
    when its [type] is not one of the two valid types or its [payload] is
    falsy (absent, [null], [false], zero or the empty string). *)
Lemma onMessage_dropped : forall connection text envelope r,
  JSON_parse text = Some envelope ->
  envelope <> VNull ->
  envelope <> VUndefined ->
  includes VALID_MESSAGE_TYPES (Get envelope "type") = false \/
  ToBoolean (Get envelope "payload") = false ->
  onMessage connection (Utf8 text) r = finish r [].
Proof.
  intros connection text envelope r Hparse Hnull Hundef Hdrop.
  unfold onMessage. rewrite Hparse.
  assert (Hguard : negb (includes VALID_MESSAGE_TYPES (Get envelope "type"))
                   || negb (ToBoolean (Get envelope "payload")) = true).
  { destruct Hdrop as [H | H]; rewrite H; simpl;
      [reflexivity | apply orb_true_r]. }
  destruct envelope; try congruence; rewrite Hguard; reflexivity.
Qed.

Lemma onMessage_syntax_error : forall connection text r,
  JSON_parse text = None ->
  onMessage connection (Utf8 text) r =
  {| registry_after := r; effects := []; outcome := Throw SyntaxError |}.
Proof.
  intros connection text r Hparse. unfold onMessage. rewrite Hparse.
  reflexivity.
Qed.

(** A decoded envelope of a valid type with a truthy payload goes to the
    handler of its type. *)
Lemma onMessage_register : forall connection text envelope r,
  JSON_parse text = Some envelope ->
  Get envelope "type" = VStr "register" ->
  ToBoolean (Get envelope "payload") = true ->
  onMessage connection (Utf8 text) r
  = handleRegisterMessage connection (Get envelope "payload") r.
Proof.
  intros connection text envelope r Hparse Htype Htruthy.
  unfold onMessage. rewrite Hparse.
  destruct envelope; try discriminate; rewrite Htype, Htruthy; reflexivity.
Qed.

Lemma onMessage_signal : forall connection text envelope r,
  JSON_parse text = Some envelope ->
  Get envelope "type" = VStr "signal" ->
  ToBoolean (Get envelope "payload") = true ->
  onMessage connection (Utf8 text) r
  = handleSignalMessage connection (Get envelope "payload") r.
Proof.
  intros connection text envelope r Hparse Htype Htruthy.
  unfold onMessage. rewrite Hparse.
  destruct envelope; try discriminate; rewrite Htype, Htruthy; reflexivity.
Qed.

End Signals.

(** The property names the handlers read are not names a built-in prototype
    of [Object] defines. *)
Lemma read_names_not_inherited :
  forallb (fun k => negb (inherited k))
    ["type"; "payload"; "id"; "source"; "target"] = true.
Proof. reflexivity. Qed.

Lemma handleRegisterMessage_no_id : forall connection payload r,
  Get payload "id" = VUndefined ->
  handleRegisterMessage connection payload r =
  {| registry_after := r; effects := []; outcome := Throw TypeError |}.
Proof.
  intros connection payload r H. unfold handleRegisterMessage. rewrite H.
  reflexivity.
Qed.

(** ** Closing *)

Lemma getIdFromConnection_unbound : forall connection (r : registry),
  (forall id, ~ In (id, connection) r) ->
  getIdFromConnection connection r = Err TypeError.
Proof.
  intros connection r Hfree. unfold getIdFromConnection.
  destruct (find (fun entry => Nat.eqb (snd entry) connection) r)
    as [[id c]|] eqn:E; [|reflexivity].
  apply find_some in E. destruct E as [Hin Hc]. simpl in Hc.
  apply Nat.eqb_eq in Hc. subst c. exfalso. exact (Hfree id Hin).
Qed.

Lemma getIdFromConnection_single : forall connection (r : registry) id,
  In (id, connection) r ->
  (forall id', In (id', connection) r -> id' = id) ->
  getIdFromConnection connection r = Ok id.
Proof.
  intros connection r id Hin Honly. unfold getIdFromConnection.
  destruct (find (fun entry => Nat.eqb (snd entry) connection) r)
    as [[id' c]|] eqn:E.
  - apply find_some in E. destruct E as [Hin' Hc]. simpl in Hc.
    apply Nat.eqb_eq in Hc. subst c. rewrite (Honly id' Hin'). reflexivity.
  - exfalso.
    pose proof (find_none _ _ E (id, connection) Hin) as Hc. simpl in Hc.
    rewrite Nat.eqb_refl in Hc. discriminate.
Qed.

(** X15.  The close of a connection that is bound under one identifier
    only removes that identifier, and the identifier can be registered again
    by any connection. *)
Lemma onClose_single_binding :
  forall connection reasonCode description (r : registry) id other payload,
  In (id, connection) r ->
  (forall id', In (id', connection) r -> id' = id) ->
  String.length id <= 5 ->
  Get payload "id" = VStr id ->
  let closed := onClose connection reasonCode description r in
  outcome closed = Normal /\
  registry_after closed = delete r id /\
  assoc id (registry_after closed) = None /\
  assoc id (registry_after
              (handleRegisterMessage other payload (registry_after closed)))
  = Some other.
Proof.
  intros connection reasonCode description r id other payload Hin Honly
    Hshort Hid closed.
  subst closed. unfold onClose.
  rewrite (getIdFromConnection_single _ _ _ Hin Honly). simpl.
  split; [reflexivity|]. split; [reflexivity|].
  split; [apply assoc_delete_eq|].
  assert (Hfree : assoc (substring 0 5 id) (delete r id) = None).
  { rewrite (substring_0_5_short id Hshort). apply assoc_delete_eq. }
  rewrite (handleRegisterMessage_free other payload id _ Hid Hfree). simpl.
  rewrite assoc_assign by exact Hfree.
  rewrite (substring_0_5_short id Hshort), String.eqb_refl. reflexivity.
Qed.

Lemma onClose_unbound : forall connection reasonCode description (r : registry),
  (forall id, ~ In (id, connection) r) ->
  onClose connection reasonCode description r =
  {| registry_after := r; effects := []; outcome := Throw TypeError |}.
Proof.
  intros connection reasonCode description r Hfree. unfold onClose.
  rewrite (getIdFromConnection_unbound _ _ Hfree). reflexivity.
Qed.

(** ** Bindings of closed connections *)

Lemma In_insert_index : forall n k c (l : registry) x,
  In x (insert_index n k c l) -> x = (k, c) \/ In x l.
Proof.
  induction l as [|[k' c'] l IH]; simpl; intros x H.
  - destruct H as [H | []]. left. symmetry. exact H.
  - destruct (array_index k') as [n'|]; [destruct (n' <? n)%N|]; simpl in H.
    + destruct H as [H | H]; [right; left; exact H|].
      destruct (IH x H) as [E | Hin]; [left; exact E | right; right; exact Hin].
    + destruct H as [H | H]; [left; symmetry; exact H | right; exact H].
    + destruct H as [H | H]; [left; symmetry; exact H | right; exact H].
Qed.

Lemma In_assign : forall (r : registry) key connection x,
  assoc key r = None ->
  In x (assign r key connection) -> x = (key, connection) \/ In x r.
Proof.
  intros r key connection x Hfree. unfold assign, has_own. rewrite Hfree.
  destruct (array_index key) as [n|].
  - apply In_insert_index.
  - intros H. apply in_app_or in H.
    destruct H as [H | [H | []]]; [right; exact H | left; symmetry; exact H].
Qed.

Lemma In_delete : forall (r : registry) key k c,
  In (k, c) (delete r key) -> In (k, c) r /\ k <> key.
Proof.
  intros r key k c H. unfold delete in H. apply filter_In in H.
  destruct H as [Hin Hk]. simpl in Hk. split; [exact Hin|].
  intros E. subst k. rewrite String.eqb_refl in Hk. discriminate.
Qed.

Lemma getIdFromConnection_In : forall connection (r : registry) id,
  getIdFromConnection connection r = Ok id -> In (id, connection) r.
Proof.
  intros connection r id. unfold getIdFromConnection.
  destruct (find (fun entry => Nat.eqb (snd entry) connection) r)
    as [[id' c]|] eqn:E; [|discriminate].
  intros H. inversion H; subst id'.
  apply find_some in E. destruct E as [Hin Hc]. simpl in Hc.
  apply Nat.eqb_eq in Hc. subst c. exact Hin.
Qed.

Section Liveness.

Context {J : JSON}.

(** A step leaves in the registry no connection whose [close] event has
    been handled, provided the connection of the event is bound under one
    identifier at most: the close handler removes one identifier. *)
Lemma step_live : forall w ev w',
  step w ev = Some w' ->
  single_binding (connections w) (source_of ev) ->
  live w -> live w'.
Proof.
  intros w ev w' Hstep Hsingle Hlive. unfold step in Hstep.
  destruct (is_closed w (source_of ev)) eqn:Hopen; [discriminate|].
  destruct (outcome (dispatch ev (connections w))) eqn:Hout; [|discriminate].
  inversion Hstep; subst w'; clear Hstep.
  intros id c Hin. unfold is_closed in *. simpl in *.
  destruct ev as [c0 m|c0 reasonCode description|c0]; simpl in *.
  - destruct (onMessage_registry c0 m (connections w))
      as [E | [key [Hfree E]]]; rewrite E in Hin.
    + exact (Hlive id c Hin).
    + destruct (In_assign _ _ _ _ Hfree Hin) as [Heq | Hin'].
      * inversion Heq; subst. exact Hopen.
      * exact (Hlive id c Hin').
  - unfold onClose in Hin, Hout.
    destruct (getIdFromConnection c0 (connections w)) as [id0|e] eqn:Eid;
      simpl in Hin, Hout; [|discriminate].
    apply In_delete in Hin. destruct Hin as [Hin Hne].
    apply orb_false_iff. split; [|exact (Hlive id c Hin)].
    apply Nat.eqb_neq. intros Ec. subst c0. apply Hne.
    exact (Hsingle id id0 Hin (getIdFromConnection_In _ _ _ Eid)).
  - rewrite onError_registry in Hin. exact (Hlive id c Hin).
Qed.

(** A handler that closes a connection closes the sender and leaves the
    registry as it is. *)
Lemma onMessage_close_keeps_registry : forall connection m r c,
  In (Close c) (effects (onMessage connection m r)) ->
  c = connection /\ registry_after (onMessage connection m r) = r.
Proof.
  intros connection m r c.
  assert (Hreg : forall payload,
            In (Close c) (effects (handleRegisterMessage connection payload r))
            -> c = connection /\
               registry_after (handleRegisterMessage connection payload r)
               = r).
  { intros payload. unfold handleRegisterMessage.
    destruct (slice_0_5 (Get payload "id")) as [id|e]; simpl; [|intros []].
    destruct (ToString id) as [key|e]; simpl; [|intros []].
    destruct (lookup r key); simpl.
    - intros [H | [H | []]]; [discriminate|]. inversion H. split; reflexivity.
    - intros [H | [H | []]]; [discriminate|]. inversion H. split; reflexivity.
    - intros [H | []]. discriminate. }
  assert (Hsig : forall payload,
            In (Close c) (effects (handleSignalMessage connection payload r))
            -> c = connection /\
               registry_after (handleSignalMessage connection payload r)
               = r).
  { intros payload H. split; [|apply handleSignalMessage_registry].
    revert H. unfold handleSignalMessage.
    destruct (nullish payload); simpl; [intros []|].
    destruct (ToString (Get payload "target")) as [target_key|e]; simpl;
      [|intros []].
    destruct (ToString (Get payload "source")) as [source_key|e]; simpl;
      [|intros []].
    destruct (lookup r source_key) as [c0| |]; simpl.
    - destruct (Nat.eqb c0 connection); simpl.
      + destruct (lookup r target_key); simpl.
        * intros [H | []]. discriminate.
        * intros [].
        * intros [H | [H | []]]; discriminate.
      + intros [H | [H | []]]; [discriminate|]. inversion H. reflexivity.
    - intros [H | [H | []]]; [discriminate|]. inversion H. reflexivity.
    - intros [H | [H | []]]; [discriminate|]. inversion H. reflexivity. }
  unfold onMessage.
  destruct m as [utf8Data|binaryData]; simpl; [|intros []].
  destruct (JSON_parse utf8Data) as [envelope|]; simpl; [|intros []].
  assert (Hguarded :
    In (Close c)
       (effects
          (if negb (includes VALID_MESSAGE_TYPES (Get envelope "type"))
              || negb (ToBoolean (Get envelope "payload"))
           then finish r []
           else match messageHandlers (Get envelope "type") with
                | Some handler => handler connection (Get envelope "payload") r
                | None => throw TypeError r []
                end)) ->
    c = connection /\
    registry_after
      (if negb (includes VALID_MESSAGE_TYPES (Get envelope "type"))
          || negb (ToBoolean (Get envelope "payload"))
       then finish r []
       else match messageHandlers (Get envelope "type") with
            | Some handler => handler connection (Get envelope "payload") r
            | None => throw TypeError r []
            end) = r).
  { destruct (negb (includes VALID_MESSAGE_TYPES (Get envelope "type"))
              || negb (ToBoolean (Get envelope "payload"))); simpl;
      [intros []|].
    destruct (messageHandlers (Get envelope "type")) as [handler|] eqn:Eh;
      simpl; [|intros []].
    unfold messageHandlers in Eh.
    destruct (Get envelope "type") as [| |b|n|s|l|o]; try discriminate.
    destruct (String.eqb s "register") eqn:Er.
    - apply String.eqb_eq in Er. subst s. inversion Eh; subst handler.
      apply Hreg.
    - destruct (String.eqb s "signal") eqn:Es.
      + apply String.eqb_eq in Es. subst s. inversion Eh; subst handler.
        apply Hsig.
      + exfalso. clear - Eh Er Es.
        apply String.eqb_neq in Er. apply String.eqb_neq in Es.
        repeat (destruct s as [|[[] [] [] [] [] [] [] []] s];
                try discriminate; try congruence). }
  destruct envelope; simpl; try (intros []); exact Hguarded.
Qed.

(** X16.  Across an event that raises nothing, whose connection is bound
    under one identifier at most: if no entry of the registry belonged to a
    connection whose [close] event had been handled, none does afterwards.
    This is less than every entry being on an open connection: when the
    handler of the event itself closes a connection, that connection is the
    sender and the registry is unchanged, so an entry of the sender stays
    until its [close] event arrives. *)
Theorem step_keeps_entries_until_close_event : forall w ev w',
  step w ev = Some w' ->
  single_binding (connections w) (source_of ev) ->
  live w ->
  live w' /\
  (forall c,
     In (Close c) (effects (dispatch ev (connections w))) ->
     c = source_of ev /\
     connections w' = connections w /\ closed w' = closed w).
Proof.
  intros w ev w' Hstep Hsingle Hlive.
  split; [exact (step_live w ev w' Hstep Hsingle Hlive)|].
  intros c Hclose. unfold step in Hstep.
  destruct (is_closed w (source_of ev)); [discriminate|].
  destruct (outcome (dispatch ev (connections w))); [|discriminate].
  inversion Hstep; subst w'; clear Hstep. simpl.
  destruct ev as [c0 m|c0 reasonCode description|c0]; simpl in *.
  - destruct (onMessage_close_keeps_registry c0 m (connections w) c Hclose)
      as [Hc Hr].
    split; [exact Hc|]. split; [exact Hr | reflexivity].
  - exfalso. unfold onClose in Hclose.
    destruct (getIdFromConnection c0 (connections w)); simpl in Hclose.
    + destruct Hclose as [H | []]. discriminate.
    + exact Hclose.
  - exfalso. unfold onError in Hclose.
    destruct (getIdFromConnection c0 (connections w)); simpl in Hclose.
    + destruct Hclose as [H | []]. discriminate.
    + exact Hclose.
Qed.

End Liveness.

(** ** Where the handlers depart from the intended behaviour *)

(** C3.  The registry holds only [alice], bound to connection 1.
    Connection 2, which never registered, sends a signal that claims the
    source [alice] and whose target is an object with an own [toString]
    property.  The lookup of the source does not give connection 2, so the
    sender ought to be closed.  But [connections[target]] is evaluated
    first, the conversion of the target to a property key finds no usable
    method and raises [TypeError], and the handler is left before the source
    test: connection 2 is not closed.  When source and target have a string
    conversion the sender is closed ([signal_wrong_source_closes_sender]). *)
Theorem signal_unconvertible_target_raises :
  lookup [("alice", 1)] "alice" <> Conn 2 /\
  Codec.parse
    (Codec.json
       "{'type':'signal','payload':{'source':'alice','target':{'toString':'x'}}}")
  = Some (VObj [("type", VStr "signal");
                ("payload",
                 VObj [("source", VStr "alice");
                       ("target", VObj [("toString", VStr "x")])])]) /\
  ToString (VObj [("toString", VStr "x")]) = Err TypeError /\
  onMessage (J := codec) 2
    (Utf8
       (Codec.json
          "{'type':'signal','payload':{'source':'alice','target':{'toString':'x'}}}"))
    [("alice", 1)]
  = {| registry_after := [("alice", 1)];
       effects := [];
       outcome := Throw TypeError |}.
Proof.
  split; [vm_compute; discriminate|].
  repeat split; vm_compute; reflexivity.
Qed.

(** C4.  The registry holds only [alice]; connection 1, registered as
    [alice], sends a signal to [constructor], which is not a key of the
    registry.  [connections["constructor"]] evaluates to the function that
    every object inherits, the test [!targetConnection] does not fire, and
    the call of [sendUTF] on that function raises [TypeError]: no error
    envelope is sent, and the exception leaves the handler.  A target that
    is not an inherited name gets the error envelope
    ([handleSignalMessage_unknown_target]). *)
Theorem signal_to_inherited_name_raises :
  assoc "constructor" [("alice", 1)] = None /\
  Codec.parse (Frame.signal "alice" "constructor")
  = Some (VObj [("type", VStr "signal");
                ("payload", VObj [("source", VStr "alice");
                                  ("target", VStr "constructor");
                                  ("type", VStr "offer")])]) /\
  onMessage (J := codec) 1 (Utf8 (Frame.signal "alice" "constructor"))
    [("alice", 1)]
  = {| registry_after := [("alice", 1)];
       effects := [];
       outcome := Throw TypeError |}.
Proof. repeat split; vm_compute; reflexivity. Qed.

(** C5.  Connection 1 registers as [a] and then as [b]; both registrations
    succeed.  When it closes, [getIdFromConnection] returns the first
    identifier only, so [a] is removed and [b] stays bound to the closed
    connection: a registration of [b] by connection 2 is then handled as a
    collision and connection 2 is closed.  A connection bound under one
    identifier only is cleaned up ([onClose_single_binding]). *)
Theorem close_leaves_second_identifier :
  handleRegisterMessage 1 (VObj [("id", VStr "a")]) []
  = {| registry_after := [("a", 1)];
       effects := [Log "Connection registered: a (total 1)"];
       outcome := Normal |} /\
  handleRegisterMessage 1 (VObj [("id", VStr "b")]) [("a", 1)]
  = {| registry_after := [("a", 1); ("b", 1)];
       effects := [Log "Connection registered: b (total 2)"];
       outcome := Normal |} /\
  onClose 1 1000 "bye" [("a", 1); ("b", 1)]
  = {| registry_after := [("b", 1)];
       effects := [Log "Connection a disconnected (1000: bye)"];
       outcome := Normal |} /\
  handleRegisterMessage 2 (VObj [("id", VStr "b")]) [("b", 1)]
  = {| registry_after := [("b", 1)];
       effects := [Log "Connection ID b already exists. Closing connection.";
                   Close 2];
       outcome := Normal |}.
Proof. repeat split; vm_compute; reflexivity. Qed.

(** C6.  The run in which connection 1 sends two register frames and then
    closes raises no exception and ends in a state whose registry still
    binds [b] to connection 1, a connection whose transport has closed: the
    state is reachable and not [live].  Steps of connections bound under one
    identifier leave no such binding ([step_live]). *)
Theorem registry_keeps_closed_connection :
  run (J := codec) start
    [EvMessage 1 (Utf8 (Frame.register "a"));
     EvMessage 1 (Utf8 (Frame.register "b"));
     EvClose 1 1000 "bye"]
  = Some {| connections := [("b", 1)]; closed := [1] |} /\
  reachable (J := codec) {| connections := [("b", 1)]; closed := [1] |} /\
  In ("b", 1) [("b", 1)] /\
  is_closed {| connections := [("b", 1)]; closed := [1] |} 1 = true /\
  ~ live {| connections := [("b", 1)]; closed := [1] |}.
Proof.
  assert (Hrun : run (J := codec) start
            [EvMessage 1 (Utf8 (Frame.register "a"));
             EvMessage 1 (Utf8 (Frame.register "b"));
             EvClose 1 1000 "bye"]
          = Some {| connections := [("b", 1)]; closed := [1] |})
    by (vm_compute; reflexivity).
  split; [exact Hrun|]. split; [eexists; exact Hrun|].
  split; [left; reflexivity|]. split; [reflexivity|].
  intros Hlive. specialize (Hlive "b" 1 (or_introl eq_refl)).
  vm_compute in Hlive. discriminate.
Qed.

(** C7.  Four text frames that are not well-formed envelopes, received
    from connection 2 while [alice] is registered.  A text that is not JSON
    makes [JSON.parse] raise [SyntaxError]; the text [null] decodes to
    [null], out of which [type] and [payload] cannot be destructured; a
    register envelope whose payload has no [id] makes [payload.id.slice]
    raise [TypeError].  Nothing in the program catches these, so the handler
    does not complete.  A register envelope whose [id] is an array, not a
    string, is not dropped either: arrays have [slice], and the connection
    is registered under the joined elements.  Frames of an unknown type or
    with a falsy payload are dropped ([onMessage_dropped]). *)
Theorem malformed_frames_raise :
  onMessage (J := codec) 2 (Utf8 "hello") [("alice", 1)]
  = {| registry_after := [("alice", 1)];
       effects := [];
       outcome := Throw SyntaxError |} /\
  onMessage (J := codec) 2 (Utf8 "null") [("alice", 1)]
  = {| registry_after := [("alice", 1)];
       effects := [];
       outcome := Throw TypeError |} /\
  onMessage (J := codec) 2
    (Utf8 (Codec.json "{'type':'register','payload':{}}")) [("alice", 1)]
  = {| registry_after := [("alice", 1)];
       effects := [];
       outcome := Throw TypeError |} /\
  onMessage (J := codec) 2
    (Utf8 (Codec.json "{'type':'register','payload':{'id':['x']}}"))
    [("alice", 1)]
  = {| registry_after := [("alice", 1); ("x", 2)];
       effects := [Log "Connection registered: x (total 2)"];
       outcome := Normal |}.
Proof. repeat split; vm_compute; reflexivity. Qed.

(** C8.  The close of a connection that never registered: [find] returns
    [undefined], the destructuring in [getIdFromConnection] raises
    [TypeError], and [onClose] neither logs nor completes.  It is so for
    every registry in which the connection is not bound
    ([onClose_unbound]). *)
Theorem close_of_unregistered_raises :
  onClose 2 1000 "bye" []
  = {| registry_after := []; effects := []; outcome := Throw TypeError |} /\
  onClose 2 1000 "bye" [("alice", 1)]
  = {| registry_after := [("alice", 1)];
       effects := [];
       outcome := Throw TypeError |} /\
  step (J := codec) {| connections := [("alice", 1)]; closed := [] |}
    (EvClose 2 1000 "bye") = None.
Proof. repeat split; vm_compute; reflexivity. Qed.

(** ** The error handler *)

(** C9, as the program has it.  The error handler looks the identifier of
    the connection up and logs it; it returns the registry it was given, for
    every connection and every registry, and closes and sends nothing.  The
    identifier is removed by [onClose] only. *)
Theorem onError_leaves_registry :
  forall (connection : conn) (r : registry),
  registry_after (onError connection r) = r /\
  (forall id,
     getIdFromConnection connection r = Ok id ->
     onError connection r =
     {| registry_after := r;
        effects := [Log ("Connection " ++ id ++ " error: ")];
        outcome := Normal |}) /\
  (forall id c,
     In (id, c) r -> In (id, c) (registry_after (onError connection r))).
Proof.
  intros connection r. split; [apply onError_registry|]. split.
  - intros id Hid. unfold onError. rewrite Hid. reflexivity.
  - intros id c Hin. rewrite onError_registry. exact Hin.
Qed.

(** C9 as stated fails: [alice] is bound to connection 1, the transport of
    connection 1 signals an error, and [alice] is still bound afterwards. *)
Lemma onError_keeps_binding :
  ~ (In ("alice", 1) [("alice", 1)] ->
     assoc "alice" (registry_after (onError 1 [("alice", 1)])) = None).
Proof.
  intros H. specialize (H (or_introl eq_refl)). vm_compute in H. discriminate.
Qed.

(** ** Concrete runs of the confirmed properties *)

(** A signal frame from [alice] to [bob], received from the connection of
    [alice], is decoded and its payload is sent to the connection of [bob]. *)
Lemma signal_frame_forwarded :
  onMessage (J := codec) 1 (Utf8 (Frame.signal "alice" "bob"))
    [("alice", 1); ("bob", 2)]
  = {| registry_after := [("alice", 1); ("bob", 2)];
       effects :=
         [SendUTF 2
            (Codec.stringify
               (VObj [("source", VStr "alice"); ("target", VStr "bob");
                      ("type", VStr "offer")]))];
       outcome := Normal |}.
Proof. vm_compute. reflexivity. Qed.

(** A signal frame to an identifier nobody registered is answered with the
    error envelope. *)
Lemma signal_frame_unknown_target :
  onMessage (J := codec) 1 (Utf8 (Frame.signal "alice" "ghost"))
    [("alice", 1); ("bob", 2)]
  = {| registry_after := [("alice", 1); ("bob", 2)];
       effects :=
         [Log "Connection ghost unknown";
          SendUTF 1 (Codec.stringify (error_response "ghost"))];
       outcome := Normal |}.
Proof. vm_compute. reflexivity. Qed.

Lemma registration_unique_collision_closes_witness :
  reachable (J := codec) {| connections := [("alice", 1)]; closed := [] |} /\
  (forall id a b,
     In (id, a) [("alice", 1)] -> In (id, b) [("alice", 1)] -> a = b) /\
  handleRegisterMessage 2 (VObj [("id", VStr "alice-2")]) [("alice", 1)]
  = {| registry_after := [("alice", 1)];
       effects :=
         [Log "Connection ID alice already exists. Closing connection.";
          Close 2];
       outcome := Normal |}.
Proof.
  assert (Hreach : reachable (J := codec)
                     {| connections := [("alice", 1)]; closed := [] |}).
  { exists [EvMessage 1 (Utf8 (Frame.register "alice"))].
    vm_compute. reflexivity. }
  split; [exact Hreach|].
  destruct (registration_unique_collision_closes (J := codec) _ Hreach)
    as [Hunique Hcollide].
  split; [exact Hunique|].
  exact (Hcollide 2 (VObj [("id", VStr "alice-2")]) "alice-2" 1
           eq_refl eq_refl).
Defined.

Lemma signal_forwarded_to_target_only_witness :
  let payload := VObj [("source", VStr "alice"); ("target", VStr "bob");
                       ("type", VStr "offer"); ("sdp", VStr "v=0")] in
  let r := [("alice", 1); ("bob", 2); ("carol", 3)] in
  handleSignalMessage (J := codec) 1 payload r =
  {| registry_after := r;
     effects := [SendUTF 2 (Codec.stringify payload)];
     outcome := Normal |}.
Proof.
  intros payload r.
  exact (proj1 (signal_forwarded_to_target_only (J := codec)
                  1 2 "alice" "bob" payload r
                  eq_refl eq_refl eq_refl eq_refl)).
Defined.

Lemma signal_wrong_source_closes_sender_example :
  let payload := VObj [("source", VStr "alice"); ("target", VStr "bob");
                       ("type", VStr "offer")] in
  let r := [("alice", 1); ("bob", 2); ("mallo", 3)] in
  lookup r "alice" <> Conn 3 /\
  handleSignalMessage (J := codec) 3 payload r =
  {| registry_after := r;
     effects := [Log "Incorrect source id. Closing connection."; Close 3];
     outcome := Normal |}.
Proof.
  intros payload r.
  assert (Hne : lookup r "alice" <> Conn 3) by (vm_compute; discriminate).
  split; [exact Hne|].
  exact (signal_wrong_source_closes_sender (J := codec)
           3 payload r "alice" "bob" eq_refl eq_refl eq_refl Hne).
Qed.

Lemma register_truncates_then_prefix_collides_witness :
  5 < String.length "alice-long" /\
  assoc "alice" (registry_after
                   (handleRegisterMessage 1
                      (VObj [("id", VStr "alice-long")]) [("bob", 2)]))
  = Some 1 /\
  handleRegisterMessage 3 (VObj [("id", VStr "alice")])
    (registry_after
       (handleRegisterMessage 1 (VObj [("id", VStr "alice-long")])
          [("bob", 2)]))
  = {| registry_after :=
         registry_after
           (handleRegisterMessage 1 (VObj [("id", VStr "alice-long")])
              [("bob", 2)]);
       effects :=
         [Log "Connection ID alice already exists. Closing connection.";
          Close 3];
       outcome := Normal |}.
Proof.
  assert (Hlong : 5 < String.length "alice-long") by (simpl; lia).
  split; [exact Hlong|].
  destruct (register_truncates_then_prefix_collides 1 3
              (VObj [("id", VStr "alice-long")]) (VObj [("id", VStr "alice")])
              "alice-long" [("bob", 2)] eq_refl Hlong eq_refl eq_refl)
    as [_ [Hbound [_ Hcollide]]].
  split; [exact Hbound | exact Hcollide].
Defined.

(** * Further properties of the handlers *)

(** ** Origins *)

Lemma prefix_split : forall p o,
  String.prefix p o = true <-> exists rest, o = p ++ rest.
Proof.
  induction p as [|a p IH]; intros o; simpl.
  - split; [intros _; exists o; reflexivity | destruct o; reflexivity].
  - destruct o as [|b o].
    + split; [discriminate | intros [rest H]; discriminate].
    + simpl. destruct (ascii_dec a b) as [E | N].
      * subst b. split.
        -- intros H. apply IH in H. destruct H as [rest H].
           exists rest. rewrite H. reflexivity.
        -- intros [rest H]. apply IH. exists rest. inversion H. reflexivity.
      * split; [discriminate|].
        intros [rest H]. inversion H. congruence.
Qed.

Lemma append_assoc : forall a b c : string, (a ++ b) ++ c = a ++ (b ++ c).
Proof.
  induction a as [|x a IH]; intros b c; simpl; [reflexivity|].
  rewrite IH. reflexivity.
Qed.

Lemma append_empty : forall s : string, s ++ "" = s.
Proof.
  induction s as [|x s IH]; simpl; [reflexivity|]. rewrite IH. reflexivity.
Qed.

(** X1.  An origin is allowed exactly when it is one of the three listed
    prefixes followed by anything. *)
Theorem origin_allowed_iff_prefix : forall o : string,
  originIsAllowed (VStr o) = Ok true <->
  exists valid rest,
    In valid ["http://localhost"; "http://192.168";
              "https://webar-spectator.now.sh"] /\
    o = valid ++ rest.
Proof.
  intros o. unfold originIsAllowed. split.
  - intros H.
    assert (Hex : existsb (fun valid => String.prefix valid o)
                    ["http://localhost"; "http://192.168";
                     "https://webar-spectator.now.sh"] = true)
      by congruence.
    apply existsb_exists in Hex.
    destruct Hex as [valid [Hin Hpre]]. apply prefix_split in Hpre.
    destruct Hpre as [rest Hrest]. exists valid, rest. split; assumption.
  - intros [valid [rest [Hin Hrest]]]. f_equal. apply existsb_exists.
    exists valid. split; [exact Hin|]. apply prefix_split.
    exists rest. exact Hrest.
Qed.

(** X2.  The test looks at the beginning of the origin only: when a request
    with origin [o] is accepted, a request whose origin is [o] followed by
    anything is accepted too, with the signaling sub-protocol, and gets the
    three handlers; it is not rejected. *)
Theorem accepted_origin_extends : forall o x : string,
  originIsAllowed (VStr o) = Ok true ->
  onRequest (VStr (o ++ x)) =
  ([Accept protocol (o ++ x); Announce "Connection accepted.";
    On "message"; On "close"; On "error"], Normal).
Proof.
  intros o x H.
  assert (Hext : originIsAllowed (VStr (o ++ x)) = Ok true).
  { unfold originIsAllowed in *.
    assert (Hex : existsb (fun valid => String.prefix valid o)
                    ["http://localhost"; "http://192.168";
                     "https://webar-spectator.now.sh"] = true)
      by congruence.
    apply existsb_exists in Hex. destruct Hex as [valid [Hin Hpre]].
    f_equal. apply existsb_exists. exists valid. split; [exact Hin|].
    apply prefix_split in Hpre. destruct Hpre as [rest Hrest].
    apply prefix_split. exists (rest ++ x). rewrite Hrest.
    apply append_assoc. }
  unfold onRequest. rewrite Hext. reflexivity.
Qed.

(** ** The shape of what the handlers return *)

Lemma lookup_conn : forall (r : registry) k c,
  lookup r k = Conn c -> assoc k r = Some c.
Proof.
  intros r k c. unfold lookup.
  destruct (assoc k r) as [c'|]; [congruence|].
  destruct (inherited k); discriminate.
Qed.

Lemma length_insert_index : forall n k c (l : registry),
  length (insert_index n k c l) = S (length l).
Proof.
  induction l as [|[k' c'] l IH]; simpl; [reflexivity|].
  destruct (array_index k') as [n'|]; [destruct (n' <? n)%N|]; simpl;
    try reflexivity.
  rewrite IH. reflexivity.
Qed.

Lemma length_assign : forall (r : registry) key connection,
  assoc key r = None -> length (assign r key connection) = S (length r).
Proof.
  intros r key connection Hfree. unfold assign, has_own. rewrite Hfree.
  destruct (array_index key) as [n|].
  - apply length_insert_index.
  - rewrite length_app. simpl. lia.
Qed.

Lemma handleRegisterMessage_cases : forall connection payload r,
  (exists e, handleRegisterMessage connection payload r = throw e r []) \/
  (exists key,
     lookup r key <> Undefined /\
     handleRegisterMessage connection payload r =
     finish r [Log ("Connection ID " ++ key
                    ++ " already exists. Closing connection.");
               Close connection]) \/
  (exists key,
     lookup r key = Undefined /\
     handleRegisterMessage connection payload r =
     finish (assign r key connection)
       [Log ("Connection registered: " ++ key ++ " (total "
             ++ string_of_nat (length (assign r key connection)) ++ ")")]).
Proof.
  intros connection payload r. unfold handleRegisterMessage.
  destruct (slice_0_5 (Get payload "id")) as [id|e];
    [|left; exists e; reflexivity].
  destruct (ToString id) as [key|e]; [|left; exists e; reflexivity].
  destruct (lookup r key) eqn:E.
  - right. left. exists key. split; [congruence | reflexivity].
  - right. left. exists key. split; [congruence | reflexivity].
  - right. right. exists key. split; [assumption | reflexivity].
Qed.

Section Shapes.

Context {J : JSON}.

(** What a signal message can make the server do. *)
Lemma handleSignalMessage_cases : forall connection payload r,
  (exists e, handleSignalMessage connection payload r = throw e r []) \/
  handleSignalMessage connection payload r =
  finish r [Log "Incorrect source id. Closing connection."; Close connection]
  \/
  (exists source_key target_key,
     ToString (Get payload "source") = Ok source_key /\
     ToString (Get payload "target") = Ok target_key /\
     assoc source_key r = Some connection /\
     ((assoc target_key r = None /\
       handleSignalMessage connection payload r =
       finish r [Log ("Connection " ++ target_key ++ " unknown");
                 SendUTF connection
                   (JSON_stringify (error_response target_key))]) \/
      (exists t,
         assoc target_key r = Some t /\
         handleSignalMessage connection payload r =
         finish r [SendUTF t (JSON_stringify payload)]))).
Proof.
  intros connection payload r. unfold handleSignalMessage.
  destruct (nullish payload); [left; exists TypeError; reflexivity|].
  destruct (ToString (Get payload "target")) as [target_key|e];
    [|left; exists e; reflexivity].
  destruct (ToString (Get payload "source")) as [source_key|e];
    [|left; exists e; reflexivity].
  destruct (lookup r source_key) as [c| |] eqn:Es;
    try (right; left; reflexivity).
  destruct (Nat.eqb c connection) eqn:Ec; [|right; left; reflexivity].
  apply Nat.eqb_eq in Ec. subst c. apply lookup_conn in Es.
  destruct (lookup r target_key) as [t| |] eqn:Et.
  - right. right. exists source_key, target_key.
    repeat (split; [reflexivity || assumption|]).
    right. exists t. split; [apply lookup_conn; exact Et | reflexivity].
  - left. exists TypeError. reflexivity.
  - right. right. exists source_key, target_key.
    repeat (split; [reflexivity || assumption|]).
    left. split; [apply lookup_undefined_free; exact Et | reflexivity].
Qed.

(** A message is dropped, raises before anything is done, or is handled by
    one of the two handlers. *)
Lemma onMessage_cases : forall connection m r,
  onMessage connection m r = finish r [] \/
  (exists e, onMessage connection m r = throw e r []) \/
  (exists payload,
     onMessage connection m r = handleRegisterMessage connection payload r) \/
  (exists payload,
     onMessage connection m r = handleSignalMessage connection payload r).
Proof.
  intros connection m r. unfold onMessage.
  destruct m as [utf8Data|binaryData]; [|left; reflexivity].
  destruct (JSON_parse utf8Data) as [envelope|];
    [|right; left; exists SyntaxError; reflexivity].
  assert (Hguarded :
    let res :=
      if negb (includes VALID_MESSAGE_TYPES (Get envelope "type"))
         || negb (ToBoolean (Get envelope "payload"))
      then finish r []
      else match messageHandlers (Get envelope "type") with
           | Some handler => handler connection (Get envelope "payload") r
           | None => throw TypeError r []
           end in
    res = finish r [] \/
    (exists e, res = throw e r []) \/
    (exists payload, res = handleRegisterMessage connection payload r) \/
    (exists payload, res = handleSignalMessage connection payload r)).
  { simpl.
    destruct (negb (includes VALID_MESSAGE_TYPES (Get envelope "type"))
              || negb (ToBoolean (Get envelope "payload")));
      [left; reflexivity|].
    destruct (messageHandlers (Get envelope "type")) as [handler|] eqn:Eh;
      [|right; left; exists TypeError; reflexivity].
    unfold messageHandlers in Eh.
    destruct (Get envelope "type") as [| |b|n|s|l|o]; try discriminate.
    destruct (String.eqb s "register") eqn:Er.
    - apply String.eqb_eq in Er. subst s. inversion Eh; subst handler.
      right. right. left. eexists. reflexivity.
    - destruct (String.eqb s "signal") eqn:Es.
      + apply String.eqb_eq in Es. subst s. inversion Eh; subst handler.
        right. right. right. eexists. reflexivity.
      + exfalso. clear - Eh Er Es.
        apply String.eqb_neq in Er. apply String.eqb_neq in Es.
        repeat (destruct s as [|[[] [] [] [] [] [] [] []] s];
                try discriminate; try congruence). }
  simpl in Hguarded.
  destruct envelope;
    try (right; left; exists TypeError; reflexivity); exact Hguarded.
Qed.

End Shapes.

(** ** Registering *)

(** X3.  A register message whose identifier is a string with a free
    five-code-unit prefix (the empty string included) binds the prefix to
    the sender and changes nothing else: every other key reads as before,
    the registry has one entry more, the new count is what is logged, and
    nothing is closed or sent. *)
Theorem register_binds_free_prefix :
  forall (connection : conn) (payload : value) (id : string) (r : registry),
  Get payload "id" = VStr id ->
  assoc (substring 0 5 id) r = None ->
  let registered := handleRegisterMessage connection payload r in
  outcome registered = Normal /\
  effects registered =
    [Log ("Connection registered: " ++ substring 0 5 id ++ " (total "
          ++ string_of_nat (S (length r)) ++ ")")] /\
  length (registry_after registered) = S (length r) /\
  (forall k,
     assoc k (registry_after registered) =
     if String.eqb (substring 0 5 id) k then Some connection
     else assoc k r).
Proof.
  intros connection payload id r Hid Hfree registered. subst registered.
  rewrite (handleRegisterMessage_free _ _ _ _ Hid Hfree). simpl.
  rewrite (length_assign r _ connection Hfree).
  repeat split. intros k. apply assoc_assign. exact Hfree.
Qed.

(** X4.  The truncation applies to strings only.  When [id] is an array
    holding one string, [slice(0, 5)] keeps the array and the key is the
    whole string, of whatever length: the sender is registered under it when
    [connections] has nothing under that name. *)
Theorem register_array_id_keeps_length :
  forall (connection : conn) (payload : value) (s : string) (r : registry),
  Get payload "id" = VArr [VStr s] ->
  lookup r s = Undefined ->
  handleRegisterMessage connection payload r =
  {| registry_after := assign r s connection;
     effects :=
       [Log ("Connection registered: " ++ s ++ " (total "
             ++ string_of_nat (S (length r)) ++ ")")];
     outcome := Normal |} /\
  assoc s (registry_after (handleRegisterMessage connection payload r))
  = Some connection.
Proof.
  intros connection payload s r Hid Hfree.
  pose proof (lookup_undefined_free _ _ Hfree) as Hnone.
  assert (E : handleRegisterMessage connection payload r =
              {| registry_after := assign r s connection;
                 effects :=
                   [Log ("Connection registered: " ++ s ++ " (total "
                         ++ string_of_nat (S (length r)) ++ ")")];
                 outcome := Normal |}).
  { unfold handleRegisterMessage. rewrite Hid. simpl.
    rewrite append_empty. rewrite Hfree.
    rewrite (length_assign r s connection Hnone). reflexivity. }
  split; [exact E|]. rewrite E. simpl.
  rewrite assoc_assign by exact Hnone. rewrite String.eqb_refl. reflexivity.
Qed.

Section Confinement.

Context {J : JSON}.

(** ** What a message can and cannot do *)

(** X5.  Whatever the payload of a signal message, the handler leaves the
    registry as it is, closes nobody but the sender, and sends something
    only when the sender is the connection bound under the source: then it
    sends either the serialized payload to the connection bound under the
    target, or the error envelope to the sender when nothing is bound under
    the target. *)
Theorem signal_effects_confined :
  forall (connection : conn) (payload : value) (r : registry),
  let handled := handleSignalMessage connection payload r in
  registry_after handled = r /\
  (forall c, In (Close c) (effects handled) -> c = connection) /\
  (forall c data,
     In (SendUTF c data) (effects handled) ->
     exists source_key target_key,
       ToString (Get payload "source") = Ok source_key /\
       ToString (Get payload "target") = Ok target_key /\
       assoc source_key r = Some connection /\
       ((c = connection /\ assoc target_key r = None /\
         data = JSON_stringify (error_response target_key)) \/
        (assoc target_key r = Some c /\ data = JSON_stringify payload))).
Proof.
  intros connection payload r handled. subst handled.
  destruct (handleSignalMessage_cases connection payload r)
    as [[e E] | [E | [sk [tk [Hs [Ht [Hbound [[Hfree E] | [t [Ht' E]]]]]]]]]];
    rewrite E; simpl.
  - split; [reflexivity|]. split; [intros c []| intros c data []].
  - split; [reflexivity|]. split.
    + intros c [H | [H | []]]; [discriminate | congruence].
    + intros c data [H | [H | []]]; discriminate.
  - split; [reflexivity|]. split.
    + intros c [H | [H | []]]; discriminate.
    + intros c data [H | [H | []]]; [discriminate|].
      inversion H; subst. exists sk, tk.
      repeat (split; [assumption|]). left. repeat split. assumption.
  - split; [reflexivity|]. split.
    + intros c [H | []]. discriminate.
    + intros c data [H | []]. inversion H; subst. exists sk, tk.
      repeat (split; [assumption|]). right. split; [assumption|reflexivity].
Qed.

(** X6.  Whatever frame a connection sends and whatever it decodes to, the
    server closes no connection but the sender, and it sends only when the
    sender is registered, and then only to the sender or to a registered
    connection. *)
Theorem message_effects_confined :
  forall (connection : conn) (m : message) (r : registry),
  (forall c, In (Close c) (effects (onMessage connection m r)) ->
             c = connection) /\
  (forall c data,
     In (SendUTF c data) (effects (onMessage connection m r)) ->
     (exists id, assoc id r = Some connection) /\
     (c = connection \/ exists id, assoc id r = Some c)).
Proof.
  intros connection m r.
  destruct (onMessage_cases connection m r)
    as [E | [[e E] | [[payload E] | [payload E]]]]; rewrite E; clear E.
  - simpl. split; [intros c [] | intros c data []].
  - simpl. split; [intros c [] | intros c data []].
  - destruct (handleRegisterMessage_cases connection payload r)
      as [[e E] | [[key [_ E]] | [key [_ E]]]]; rewrite E; simpl.
    + split; [intros c [] | intros c data []].
    + split.
      * intros c [H | [H | []]]; [discriminate | congruence].
      * intros c data [H | [H | []]]; discriminate.
    + split.
      * intros c [H | []]. discriminate.
      * intros c data [H | []]. discriminate.
  - destruct (handleSignalMessage_cases connection payload r)
      as [[e E] | [E | [sk [tk [Hs [Ht [Hbound [[Hfree E] | [t [Ht' E]]]]]]]]]];
      rewrite E; simpl.
    + split; [intros c [] | intros c data []].
    + split.
      * intros c [H | [H | []]]; [discriminate | congruence].
      * intros c data [H | [H | []]]; discriminate.
    + split.
      * intros c [H | [H | []]]; discriminate.
      * intros c data [H | [H | []]]; [discriminate|].
        inversion H; subst. split; [exists sk; assumption | left; reflexivity].
    + split.
      * intros c [H | []]. discriminate.
      * intros c data [H | []]. inversion H; subst.
        split; [exists sk; assumption | right; exists tk; assumption].
Qed.

(** X7.  First registrant wins: no frame, from whatever connection, removes
    or rebinds an identifier that is bound. *)
Theorem message_keeps_bindings :
  forall (connection : conn) (m : message) (r : registry)
         (id : string) (holder : conn),
  assoc id r = Some holder ->
  assoc id (registry_after (onMessage connection m r)) = Some holder.
Proof.
  intros connection m r id holder Hbound.
  destruct (onMessage_registry connection m r) as [E | [key [Hfree E]]];
    rewrite E; [exact Hbound|].
  rewrite assoc_assign by exact Hfree.
  destruct (String.eqb key id) eqn:Ek; [|exact Hbound].
  apply String.eqb_eq in Ek. subst key. congruence.
Qed.

(** X8.  A handler that raises has done nothing before: whenever the
    handling of an event completes with an exception, the registry is the
    one it was given and no call was made on any connection or on the log. *)
Theorem exception_leaves_no_trace :
  forall (ev : event) (r : registry) (e : exn),
  outcome (dispatch ev r) = Throw e ->
  registry_after (dispatch ev r) = r /\ effects (dispatch ev r) = [].
Proof.
  intros ev r e Hthrow.
  destruct ev as [c m|c reasonCode description|c]; simpl in *.
  - destruct (onMessage_cases c m r)
      as [E | [[e' E] | [[payload E] | [payload E]]]];
      rewrite E in *; clear E.
    + discriminate.
    + split; reflexivity.
    + destruct (handleRegisterMessage_cases c payload r)
        as [[e' E] | [[key [_ E]] | [key [_ E]]]]; rewrite E in *;
        [split; reflexivity | discriminate | discriminate].
    + destruct (handleSignalMessage_cases c payload r)
        as [[e' E] | [E | [sk [tk [_ [_ [_ [[_ E] | [t [_ E]]]]]]]]]];
        rewrite E in *;
        [split; reflexivity | discriminate | discriminate | discriminate].
  - unfold onClose in *.
    destruct (getIdFromConnection c r); simpl in *;
      [discriminate | split; reflexivity].
  - unfold onError in *.
    destruct (getIdFromConnection c r); simpl in *;
      [discriminate | split; reflexivity].
Qed.

End Confinement.

(** ** Closing and errors *)

Lemma delete_absent : forall (r : registry) key,
  assoc key r = None -> delete r key = r.
Proof.
  induction r as [|[k c] r IH]; simpl; intros key Hfree; [reflexivity|].
  destruct (String.eqb k key) eqn:E; [discriminate|]. simpl.
  rewrite (IH key Hfree). reflexivity.
Qed.

Lemma delete_insert_index : forall n key c (r : registry),
  assoc key r = None -> delete (insert_index n key c r) key = r.
Proof.
  induction r as [|[k' c'] r IH]; simpl; intros Hfree.
  - rewrite String.eqb_refl. reflexivity.
  - destruct (String.eqb k' key) eqn:E; [discriminate|].
    assert (Hhead : delete ((key, c) :: (k', c') :: r) key = (k', c') :: r).
    { simpl. rewrite String.eqb_refl, E. simpl.
      fold (delete r key). rewrite (delete_absent r key Hfree). reflexivity. }
    destruct (array_index k') as [n'|]; [destruct (n' <? n)%N|];
      try exact Hhead.
    simpl. rewrite E. simpl. fold (delete (insert_index n key c r) key).
    rewrite (IH Hfree). reflexivity.
Qed.

Lemma delete_snoc : forall key c (r : registry),
  assoc key r = None -> delete (r ++ [(key, c)])%list key = r.
Proof.
  intros key c r Hfree. unfold delete. rewrite filter_app. simpl.
  rewrite String.eqb_refl. simpl. rewrite app_nil_r.
  exact (delete_absent r key Hfree).
Qed.

Lemma delete_assign : forall (r : registry) key c,
  assoc key r = None -> delete (assign r key c) key = r.
Proof.
  intros r key c Hfree. unfold assign, has_own. rewrite Hfree.
  destruct (array_index key) as [n|].
  - apply delete_insert_index. exact Hfree.
  - apply delete_snoc. exact Hfree.
Qed.

Lemma find_after_unbound : forall connection (r rest : registry),
  (forall k, ~ In (k, connection) r) ->
  find (fun entry => Nat.eqb (snd entry) connection) (r ++ rest)%list
  = find (fun entry => Nat.eqb (snd entry) connection) rest.
Proof.
  induction r as [|[k c] r IH]; simpl; intros rest Hfree; [reflexivity|].
  assert (Hc : Nat.eqb c connection = false).
  { apply Nat.eqb_neq. intros E. subst c. apply (Hfree k). left.
    reflexivity. }
  rewrite Hc. apply IH. intros k' Hin. apply (Hfree k'). right. exact Hin.
Qed.

Lemma getIdFromConnection_insert_index : forall n key connection (r : registry),
  (forall k, ~ In (k, connection) r) ->
  getIdFromConnection connection (insert_index n key connection r) = Ok key.
Proof.
  unfold getIdFromConnection.
  induction r as [|[k' c'] r IH]; simpl; intros Hfree.
  - rewrite Nat.eqb_refl. reflexivity.
  - assert (Hc : Nat.eqb c' connection = false).
    { apply Nat.eqb_neq. intros E. subst c'. apply (Hfree k'). left.
      reflexivity. }
    assert (Hrest : forall k, ~ In (k, connection) r).
    { intros k Hin. apply (Hfree k). right. exact Hin. }
    destruct (array_index k') as [n'|]; [destruct (n' <? n)%N|]; simpl;
      try (rewrite Nat.eqb_refl; reflexivity).
    rewrite Hc. apply IH. exact Hrest.
Qed.

Lemma getIdFromConnection_assign : forall (r : registry) key connection,
  assoc key r = None ->
  (forall k, ~ In (k, connection) r) ->
  getIdFromConnection connection (assign r key connection) = Ok key.
Proof.
  intros r key connection Hfree Hunbound. unfold assign, has_own.
  rewrite Hfree. destruct (array_index key) as [n|].
  - apply getIdFromConnection_insert_index. exact Hunbound.
  - unfold getIdFromConnection.
    rewrite (find_after_unbound connection r _ Hunbound). simpl.
    rewrite Nat.eqb_refl. reflexivity.
Qed.

(** X9.  Registering and closing undo each other: when a connection that is
    not bound registers under a free prefix and then its transport closes,
    the close handler finds that prefix, removes it and leaves the registry
    exactly as it was before the registration, order included. *)
Theorem register_then_close_restores :
  forall (connection : conn) (payload : value) (id : string)
         (reasonCode : nat) (description : string) (r : registry),
  Get payload "id" = VStr id ->
  assoc (substring 0 5 id) r = None ->
  (forall k, ~ In (k, connection) r) ->
  onClose connection reasonCode description
    (registry_after (handleRegisterMessage connection payload r)) =
  {| registry_after := r;
     effects :=
       [Log ("Connection " ++ substring 0 5 id ++ " disconnected ("
             ++ string_of_nat reasonCode ++ ": " ++ description ++ ")")];
     outcome := Normal |}.
Proof.
  intros connection payload id reasonCode description r Hid Hfree Hunbound.
  rewrite (handleRegisterMessage_free _ _ _ _ Hid Hfree). simpl.
  unfold onClose.
  rewrite (getIdFromConnection_assign r _ connection Hfree Hunbound).
  unfold finish. rewrite (delete_assign r _ connection Hfree). reflexivity.
Qed.

(** X10.  Where every identifier has one binding, as in every state the
    server reaches, the close of a connection removes no binding of any
    other connection. *)
Theorem close_keeps_other_connections :
  forall (connection : conn) (reasonCode : nat) (description : string)
         (r : registry) (id : string) (other : conn),
  NoDup (map fst r) ->
  In (id, other) r ->
  other <> connection ->
  In (id, other)
     (registry_after (onClose connection reasonCode description r)).
Proof.
  intros connection reasonCode description r id other Hnd Hin Hne.
  unfold onClose.
  destruct (getIdFromConnection connection r) as [found|e] eqn:E; simpl;
    [|exact Hin].
  apply getIdFromConnection_In in E.
  unfold delete. apply filter_In. split; [exact Hin|]. simpl.
  apply negb_true_iff. apply String.eqb_neq. intros Heq. subst found.
  pose proof (NoDup_keys_assoc _ _ _ Hnd Hin) as E1.
  pose proof (NoDup_keys_assoc _ _ _ Hnd E) as E2.
  congruence.
Qed.

(** X11.  The reverse lookup returns the identifier of the first entry, in
    the enumeration order of the registry, that holds the connection. *)
Theorem getIdFromConnection_first :
  forall (connection : conn) (r : registry) (id : string),
  getIdFromConnection connection r = Ok id <->
  exists before after,
    r = (before ++ (id, connection) :: after)%list /\
    forall k c, In (k, c) before -> c <> connection.
Proof.
  intros connection r id. unfold getIdFromConnection. split.
  - induction r as [|[k c] r IH]; simpl; [discriminate|].
    destruct (Nat.eqb c connection) eqn:Ec.
    + intros H. inversion H; subst k. apply Nat.eqb_eq in Ec. subst c.
      exists [], r. split; [reflexivity|]. intros k c [].
    + intros H. destruct (IH H) as [before [after [Hr Hbefore]]].
      exists ((k, c) :: before), after. split; [rewrite Hr; reflexivity|].
      intros k' c' [Heq | Hin].
      * inversion Heq; subst. apply Nat.eqb_neq. exact Ec.
      * exact (Hbefore k' c' Hin).
  - intros [before [after [Hr Hbefore]]]. subst r.
    induction before as [|[k c] before IH]; simpl.
    + rewrite Nat.eqb_refl. reflexivity.
    + assert (Hc : Nat.eqb c connection = false).
      { apply Nat.eqb_neq. apply (Hbefore k c). left. reflexivity. }
      rewrite Hc. apply IH. intros k' c' Hin.
      apply (Hbefore k' c'). right. exact Hin.
Qed.

(** X12.  The handlers of [close] and [error] complete normally exactly when
    the connection is bound under some identifier; for a connection that is
    not bound both raise [TypeError]. *)
Theorem close_and_error_need_a_binding :
  forall (connection : conn) (reasonCode : nat) (description : string)
         (r : registry),
  (outcome (onClose connection reasonCode description r) = Normal <->
   exists id, In (id, connection) r) /\
  (outcome (onError connection r) = Normal <->
   exists id, In (id, connection) r) /\
  ((forall id, ~ In (id, connection) r) ->
   outcome (onClose connection reasonCode description r) = Throw TypeError /\
   outcome (onError connection r) = Throw TypeError).
Proof.
  intros connection reasonCode description r.
  assert (Hget : (exists id, getIdFromConnection connection r = Ok id) <->
                 exists id, In (id, connection) r).
  { split.
    - intros [id E]. exists id. exact (getIdFromConnection_In _ _ _ E).
    - intros [id Hin]. unfold getIdFromConnection.
      destruct (find (fun entry => Nat.eqb (snd entry) connection) r)
        as [[k c]|] eqn:E; [exists k; reflexivity|].
      pose proof (find_none _ _ E (id, connection) Hin) as Hc. simpl in Hc.
      rewrite Nat.eqb_refl in Hc. discriminate. }
  unfold onClose, onError. split; [|split].
  - rewrite <- Hget.
    destruct (getIdFromConnection connection r) as [id|e]; simpl; split;
      try discriminate; try (intros _; reflexivity).
    + intros _. exists id. reflexivity.
    + intros [id H]. discriminate.
  - rewrite <- Hget.
    destruct (getIdFromConnection connection r) as [id|e]; simpl; split;
      try discriminate; try (intros _; reflexivity).
    + intros _. exists id. reflexivity.
    + intros [id H]. discriminate.
  - intros Hunbound.
    rewrite (getIdFromConnection_unbound _ _ Hunbound). simpl.
    split; reflexivity.
Qed.

(** ** Names the registry never binds *)

Lemma lookup_undefined_not_inherited : forall (r : registry) key,
  lookup r key = Undefined -> inherited key = false.
Proof.
  intros r key. unfold lookup.
  destruct (assoc key r); [discriminate|].
  destruct (inherited key); [discriminate | reflexivity].
Qed.

Section Names.

Context {J : JSON}.

Lemma onMessage_registry_undefined : forall connection m r,
  registry_after (onMessage connection m r) = r \/
  exists key,
    lookup r key = Undefined /\
    registry_after (onMessage connection m r) = assign r key connection.
Proof.
  intros connection m r.
  destruct (onMessage_cases connection m r)
    as [E | [[e E] | [[payload E] | [payload E]]]]; rewrite E; clear E;
    try (left; reflexivity).
  - destruct (handleRegisterMessage_cases connection payload r)
      as [[e E] | [[key [_ E]] | [key [Hfree E]]]]; rewrite E;
      try (left; reflexivity).
    right. exists key. split; [exact Hfree | reflexivity].
  - left. apply handleSignalMessage_registry.
Qed.

Lemma step_keys_not_inherited : forall w ev w',
  step w ev = Some w' ->
  (forall id c, In (id, c) (connections w) -> inherited id = false) ->
  forall id c, In (id, c) (connections w') -> inherited id = false.
Proof.
  intros w ev w' Hstep Hinv id c Hin. unfold step in Hstep.
  destruct (is_closed w (source_of ev)); [discriminate|].
  destruct (outcome (dispatch ev (connections w))); [|discriminate].
  inversion Hstep; subst w'; clear Hstep. simpl in Hin.
  destruct ev as [c0 m|c0 reasonCode description|c0]; simpl in Hin.
  - destruct (onMessage_registry_undefined c0 m (connections w))
      as [E | [key [Hfree E]]]; rewrite E in Hin.
    + exact (Hinv id c Hin).
    + destruct (In_assign _ _ _ _ (lookup_undefined_free _ _ Hfree) Hin)
        as [Heq | Hin'].
      * inversion Heq; subst.
        exact (lookup_undefined_not_inherited _ _ Hfree).
      * exact (Hinv id c Hin').
  - destruct (onClose_registry c0 reasonCode description (connections w))
      as [E | [id0 E]]; rewrite E in Hin.
    + exact (Hinv id c Hin).
    + apply In_delete in Hin. exact (Hinv id c (proj1 Hin)).
  - rewrite onError_registry in Hin. exact (Hinv id c Hin).
Qed.

Lemma run_keys_not_inherited : forall evs w w',
  run w evs = Some w' ->
  (forall id c, In (id, c) (connections w) -> inherited id = false) ->
  forall id c, In (id, c) (connections w') -> inherited id = false.
Proof.
  induction evs as [|ev evs IH]; simpl; intros w w' Hrun Hinv.
  - inversion Hrun; subst. exact Hinv.
  - destruct (step w ev) as [w1|] eqn:Hstep; [|discriminate].
    apply (IH w1 w' Hrun). exact (step_keys_not_inherited w ev w1 Hstep Hinv).
Qed.

(** X17.  In every state the server reaches, no identifier of the registry
    is a name that objects inherit, so such a name still evaluates to the
    built-in: a registration under it is always answered by closing the
    connection, and a signal to it always raises. *)
Theorem reachable_keys_not_inherited : forall (w : world),
  reachable w ->
  (forall id c, In (id, c) (connections w) -> inherited id = false) /\
  (forall name,
     inherited name = true -> lookup (connections w) name = Builtin).
Proof.
  intros w [evs Hrun].
  assert (Hkeys : forall id c,
            In (id, c) (connections w) -> inherited id = false).
  { apply (run_keys_not_inherited evs start w Hrun). intros id c []. }
  split; [exact Hkeys|].
  intros name Hname. unfold lookup.
  destruct (assoc name (connections w)) as [c|] eqn:E.
  - apply assoc_In in E. rewrite (Hkeys name c E) in Hname. discriminate.
  - rewrite Hname. reflexivity.
Qed.

(** ** A registration followed by a signal *)

(** X18.  A connection that has just registered under a free prefix can
    signal: with the prefix as source and the identifier of a registered
    connection as target, its payload is sent to that connection and to
    nobody else. *)
Theorem register_then_signal_reaches_target :
  forall (A B : conn) (registration signal : value) (id t : string)
         (r : registry),
  Get registration "id" = VStr id ->
  assoc (substring 0 5 id) r = None ->
  assoc t r = Some B ->
  Get signal "source" = VStr (substring 0 5 id) ->
  Get signal "target" = VStr t ->
  let registered := registry_after (handleRegisterMessage A registration r) in
  handleSignalMessage A signal registered =
  {| registry_after := registered;
     effects := [SendUTF B (JSON_stringify signal)];
     outcome := Normal |}.
Proof.
  intros A B registration signal id t r Hid Hfree HB Hs Ht registered.
  subst registered.
  rewrite (handleRegisterMessage_free _ _ _ _ Hid Hfree). simpl.
  unfold handleSignalMessage.
  rewrite (string_property_not_nullish _ _ _ Hs), Hs, Ht. simpl.
  assert (HA' : assoc (substring 0 5 id)
                  (assign r (substring 0 5 id) A) = Some A).
  { rewrite assoc_assign by exact Hfree. rewrite String.eqb_refl.
    reflexivity. }
  assert (HB' : assoc t (assign r (substring 0 5 id) A) = Some B).
  { rewrite assoc_assign by exact Hfree.
    destruct (String.eqb (substring 0 5 id) t) eqn:E; [|exact HB].
    apply String.eqb_eq in E. rewrite E in Hfree. congruence. }
  rewrite (lookup_own _ _ _ HA'), (lookup_own _ _ _ HB').
  rewrite Nat.eqb_refl. reflexivity.
Qed.

(** X19.  The source of a signal is not truncated.  A connection that
    registered with an identifier of more than five code units is bound
    under the prefix; when it then signals with the identifier as it wrote
    it, and that identifier is not bound to it, the source test fails and
    the connection is closed, whatever the target. *)
Theorem signal_with_untruncated_source_closes :
  forall (A : conn) (registration signal : value) (id t : string)
         (r : registry),
  Get registration "id" = VStr id ->
  5 < String.length id ->
  assoc (substring 0 5 id) r = None ->
  assoc id r <> Some A ->
  Get signal "source" = VStr id ->
  Get signal "target" = VStr t ->
  let registered := registry_after (handleRegisterMessage A registration r) in
  assoc (substring 0 5 id) registered = Some A /\
  handleSignalMessage A signal registered =
  {| registry_after := registered;
     effects := [Log "Incorrect source id. Closing connection."; Close A];
     outcome := Normal |}.
Proof.
  intros A registration signal id t r Hid Hlong Hfree Hother Hs Ht registered.
  subst registered.
  rewrite (handleRegisterMessage_free _ _ _ _ Hid Hfree). simpl.
  split.
  { rewrite assoc_assign by exact Hfree. rewrite String.eqb_refl.
    reflexivity. }
  assert (Hsame : assoc id (assign r (substring 0 5 id) A) = assoc id r).
  { rewrite assoc_assign by exact Hfree.
    destruct (String.eqb (substring 0 5 id) id) eqn:E; [|reflexivity].
    apply String.eqb_eq in E.
    pose proof (substring_0_5_length id) as Hshort. rewrite E in Hshort.
    lia. }
  unfold handleSignalMessage.
  rewrite (string_property_not_nullish _ _ _ Hs), Hs, Ht. simpl.
  destruct (lookup (assign r (substring 0 5 id) A) id) as [c| |] eqn:El;
    try reflexivity.
  destruct (Nat.eqb c A) eqn:Ec; [|reflexivity].
  apply Nat.eqb_eq in Ec. subst c. apply lookup_conn in El.
  rewrite Hsame in El. contradiction.
Qed.

End Names.

(** ** Concrete runs of the further properties *)

Lemma accepted_origin_extends_witness :
  originIsAllowed (VStr "http://localhost") = Ok true /\
  onRequest (VStr "http://localhost.example.org") =
  ([Accept protocol "http://localhost.example.org";
    Announce "Connection accepted."; On "message"; On "close"; On "error"],
   Normal).
Proof.
  split; [reflexivity|].
  exact (accepted_origin_extends "http://localhost" ".example.org" eq_refl).
Defined.

Lemma register_binds_free_prefix_witness :
  assoc (substring 0 5 "") [("bob", 2)] = None /\
  effects (handleRegisterMessage 1 (VObj [("id", VStr "")]) [("bob", 2)])
  = [Log "Connection registered:  (total 2)"] /\
  assoc "" (registry_after
              (handleRegisterMessage 1 (VObj [("id", VStr "")]) [("bob", 2)]))
  = Some 1 /\
  assoc "bob" (registry_after
                 (handleRegisterMessage 1 (VObj [("id", VStr "")])
                    [("bob", 2)]))
  = Some 2.
Proof.
  split; [reflexivity|].
  destruct (register_binds_free_prefix 1 (VObj [("id", VStr "")]) ""
              [("bob", 2)] eq_refl eq_refl) as [_ [Heff [_ Hread]]].
  split; [exact Heff|]. split; [exact (Hread "") | exact (Hread "bob")].
Defined.

Lemma register_array_id_keeps_length_witness :
  lookup [("bob", 2)] "alice-and-more" = Undefined /\
  assoc "alice-and-more"
    (registry_after
       (handleRegisterMessage 1
          (VObj [("id", VArr [VStr "alice-and-more"])]) [("bob", 2)]))
  = Some 1.
Proof.
  split; [reflexivity|].
  exact (proj2 (register_array_id_keeps_length 1
                  (VObj [("id", VArr [VStr "alice-and-more"])])
                  "alice-and-more" [("bob", 2)] eq_refl eq_refl)).
Defined.

Lemma message_keeps_bindings_witness :
  assoc "alice" [("alice", 1)] = Some 1 /\
  assoc "alice"
    (registry_after
       (onMessage (J := codec) 2 (Utf8 (Frame.register "alice"))
          [("alice", 1)]))
  = Some 1.
Proof.
  split; [reflexivity|].
  exact (message_keeps_bindings (J := codec) 2
           (Utf8 (Frame.register "alice")) [("alice", 1)] "alice" 1 eq_refl).
Defined.

Lemma exception_leaves_no_trace_witness :
  outcome (dispatch (J := codec) (EvClose 2 1000 "bye") [("alice", 1)])
  = Throw TypeError /\
  registry_after (dispatch (J := codec) (EvClose 2 1000 "bye") [("alice", 1)])
  = [("alice", 1)] /\
  effects (dispatch (J := codec) (EvClose 2 1000 "bye") [("alice", 1)]) = [].
Proof.
  split; [reflexivity|].
  exact (exception_leaves_no_trace (J := codec) (EvClose 2 1000 "bye")
           [("alice", 1)] TypeError eq_refl).
Defined.

Lemma register_then_close_restores_witness :
  assoc (substring 0 5 "3") [("7", 2); ("alice", 1)] = None /\
  registry_after
    (handleRegisterMessage 3 (VObj [("id", VStr "3")])
       [("7", 2); ("alice", 1)])
  = [("3", 3); ("7", 2); ("alice", 1)] /\
  onClose 3 1000 "bye"
    (registry_after
       (handleRegisterMessage 3 (VObj [("id", VStr "3")])
          [("7", 2); ("alice", 1)]))
  = {| registry_after := [("7", 2); ("alice", 1)];
       effects := [Log "Connection 3 disconnected (1000: bye)"];
       outcome := Normal |}.
Proof.
  split; [reflexivity|]. split; [reflexivity|].
  apply (register_then_close_restores 3 (VObj [("id", VStr "3")]) "3"
           1000 "bye" [("7", 2); ("alice", 1)] eq_refl eq_refl).
  intros k [H | [H | []]]; discriminate.
Defined.

Lemma close_keeps_other_connections_witness :
  NoDup (map fst [("alice", 1); ("bob", 2)]) /\
  In ("bob", 2)
     (registry_after (onClose 1 1000 "bye" [("alice", 1); ("bob", 2)])).
Proof.
  assert (Hnd : NoDup (map fst [("alice", 1); ("bob", 2)])).
  { simpl. constructor.
    - intros [H | []]. discriminate.
    - constructor; [intros [] | constructor]. }
  split; [exact Hnd|].
  apply (close_keeps_other_connections 1 1000 "bye"
           [("alice", 1); ("bob", 2)] "bob" 2 Hnd).
  - right. left. reflexivity.
  - discriminate.
Defined.

Lemma handleSignalMessage_unknown_target_witness :
  assoc "ghost" [("alice", 1); ("bob", 2)] = None /\
  inherited "ghost" = false /\
  handleSignalMessage (J := codec) 1
    (VObj [("source", VStr "alice"); ("target", VStr "ghost")])
    [("alice", 1); ("bob", 2)]
  = {| registry_after := [("alice", 1); ("bob", 2)];
       effects := [Log "Connection ghost unknown";
                   SendUTF 1 (Codec.stringify (error_response "ghost"))];
       outcome := Normal |}.
Proof.
  split; [reflexivity|]. split; [reflexivity|].
  exact (handleSignalMessage_unknown_target (J := codec) 1
           (VObj [("source", VStr "alice"); ("target", VStr "ghost")])
           [("alice", 1); ("bob", 2)] "alice" "ghost"
           eq_refl eq_refl eq_refl eq_refl eq_refl).
Defined.

Lemma onMessage_dropped_witness :
  Codec.parse (Codec.json "{'type':'error','payload':{'message':'x'}}")
  = Some (VObj [("type", VStr "error");
                ("payload", VObj [("message", VStr "x")])]) /\
  onMessage (J := codec) 1
    (Utf8 (Codec.json "{'type':'error','payload':{'message':'x'}}"))
    [("alice", 1)]
  = finish [("alice", 1)] [].
Proof.
  assert (Hparse :
    Codec.parse (Codec.json "{'type':'error','payload':{'message':'x'}}")
    = Some (VObj [("type", VStr "error");
                  ("payload", VObj [("message", VStr "x")])]))
    by (vm_compute; reflexivity).
  split; [exact Hparse|].
  apply (onMessage_dropped (J := codec) 1 _ _ [("alice", 1)] Hparse).
  - discriminate.
  - discriminate.
  - left. reflexivity.
Defined.

Lemma onClose_single_binding_witness :
  In ("alice", 1) [("alice", 1); ("bob", 2)] /\
  registry_after (onClose 1 1000 "bye" [("alice", 1); ("bob", 2)])
  = [("bob", 2)] /\
  assoc "alice"
    (registry_after
       (handleRegisterMessage 3 (VObj [("id", VStr "alice")])
          (registry_after (onClose 1 1000 "bye" [("alice", 1); ("bob", 2)]))))
  = Some 3.
Proof.
  assert (Hin : In ("alice", 1) [("alice", 1); ("bob", 2)])
    by (left; reflexivity).
  split; [exact Hin|].
  assert (Honly : forall id',
            In (id', 1) [("alice", 1); ("bob", 2)] -> id' = "alice").
  { intros id' [H | [H | []]]; inversion H. reflexivity. }
  assert (Hshort : String.length "alice" <= 5) by (simpl; lia).
  destruct (onClose_single_binding 1 1000 "bye" [("alice", 1); ("bob", 2)]
              "alice" 3 (VObj [("id", VStr "alice")])
              Hin Honly Hshort eq_refl) as [_ [Hreg [_ Hagain]]].
  split; [exact Hreg | exact Hagain].
Defined.

Lemma step_keeps_entries_until_close_event_witness :
  step (J := codec)
    {| connections := [("alice", 1); ("bob", 2)]; closed := [] |}
    (EvMessage 1 (Utf8 (Frame.signal "bob" "alice")))
  = Some {| connections := [("alice", 1); ("bob", 2)]; closed := [] |} /\
  In (Close 1)
     (effects
        (dispatch (J := codec)
           (EvMessage 1 (Utf8 (Frame.signal "bob" "alice")))
           [("alice", 1); ("bob", 2)])) /\
  live {| connections := [("alice", 1); ("bob", 2)]; closed := [] |} /\
  (forall c,
     In (Close c)
        (effects
           (dispatch (J := codec)
              (EvMessage 1 (Utf8 (Frame.signal "bob" "alice")))
              [("alice", 1); ("bob", 2)])) ->
     c = 1 /\
     [("alice", 1); ("bob", 2)] = [("alice", 1); ("bob", 2)] /\
     @nil conn = []).
Proof.
  assert (Hstep :
    step (J := codec)
      {| connections := [("alice", 1); ("bob", 2)]; closed := [] |}
      (EvMessage 1 (Utf8 (Frame.signal "bob" "alice")))
    = Some {| connections := [("alice", 1); ("bob", 2)]; closed := [] |})
    by (vm_compute; reflexivity).
  split; [exact Hstep|].
  split; [vm_compute; right; left; reflexivity|].
  apply (step_keeps_entries_until_close_event (J := codec) _ _ _ Hstep).
  - intros id id' [H | [H | []]] [H' | [H' | []]];
      inversion H; inversion H'; reflexivity.
  - intros id c [H | [H | []]]; reflexivity.
Defined.

Lemma reachable_keys_not_inherited_witness :
  reachable (J := codec) {| connections := [("alice", 1)]; closed := [] |} /\
  lookup [("alice", 1)] "toString" = Builtin.
Proof.
  assert (Hreach : reachable (J := codec)
                     {| connections := [("alice", 1)]; closed := [] |}).
  { exists [EvMessage 1 (Utf8 (Frame.register "alice"))].
    vm_compute. reflexivity. }
  split; [exact Hreach|].
  exact (proj2 (reachable_keys_not_inherited (J := codec) _ Hreach)
           "toString" eq_refl).
Defined.

Lemma register_then_signal_reaches_target_witness :
  assoc (substring 0 5 "alice-long") [("bob", 2)] = None /\
  handleSignalMessage (J := codec) 1
    (VObj [("source", VStr "alice"); ("target", VStr "bob")])
    (registry_after
       (handleRegisterMessage 1 (VObj [("id", VStr "alice-long")])
          [("bob", 2)]))
  = {| registry_after :=
         registry_after
           (handleRegisterMessage 1 (VObj [("id", VStr "alice-long")])
              [("bob", 2)]);
       effects :=
         [SendUTF 2
            (Codec.stringify
               (VObj [("source", VStr "alice"); ("target", VStr "bob")]))];
       outcome := Normal |}.
Proof.
  split; [reflexivity|].
  exact (register_then_signal_reaches_target (J := codec) 1 2
           (VObj [("id", VStr "alice-long")])
           (VObj [("source", VStr "alice"); ("target", VStr "bob")])
           "alice-long" "bob" [("bob", 2)]
           eq_refl eq_refl eq_refl eq_refl eq_refl).
Defined.

Lemma signal_with_untruncated_source_closes_witness :
  5 < String.length "alice-long" /\
  assoc "alice-long" [("bob", 2)] <> Some 1 /\
  handleSignalMessage (J := codec) 1
    (VObj [("source", VStr "alice-long"); ("target", VStr "bob")])
    (registry_after
       (handleRegisterMessage 1 (VObj [("id", VStr "alice-long")])
          [("bob", 2)]))
  = {| registry_after :=
         registry_after
           (handleRegisterMessage 1 (VObj [("id", VStr "alice-long")])
              [("bob", 2)]);
       effects := [Log "Incorrect source id. Closing connection."; Close 1];
       outcome := Normal |}.
Proof.
  assert (Hlong : 5 < String.length "alice-long") by (simpl; lia).
  assert (Hother : assoc "alice-long" [("bob", 2)] <> Some 1)
    by (simpl; discriminate).
  split; [exact Hlong|]. split; [exact Hother|].
  exact (proj2 (signal_with_untruncated_source_closes (J := codec) 1
                  (VObj [("id", VStr "alice-long")])
                  (VObj [("source", VStr "alice-long");
                         ("target", VStr "bob")])
                  "alice-long" "bob" [("bob", 2)]
                  eq_refl Hlong eq_refl Hother eq_refl eq_refl)).
Defined.

(** ** Requests *)

(** X20.  A request is never both rejected and accepted, and the three
    handlers are attached only to a request that was accepted, which takes
    an origin that is a string and passes the test.  A rejected request gets
    no handler; a request whose origin is not a string raises before it is
    either rejected or accepted. *)
Theorem request_handlers_only_when_accepted : forall (origin : value),
  let actions := fst (onRequest origin) in
  (forall name,
     In (On name) actions ->
     exists o,
       origin = VStr o /\ originIsAllowed origin = Ok true /\
       In (Accept protocol o) actions /\ ~ In Reject actions) /\
  (In Reject actions ->
   originIsAllowed origin = Ok false /\
   forall name subprotocol o,
     ~ In (On name) actions /\ ~ In (Accept subprotocol o) actions) /\
  ((forall o, origin <> VStr o) ->
   onRequest origin = ([], Throw TypeError)).
Proof.
  intros origin actions. subst actions.
  destruct origin as [| |b|n|o|l|props];
    try (simpl; split; [intros name []|];
         split; [intros []|]; intros _; reflexivity).
  unfold onRequest.
  destruct (originIsAllowed (VStr o)) as [[|]|e] eqn:E; simpl.
  - split; [|split].
    + intros name _. exists o. split; [reflexivity|]. split; [reflexivity|].
      split; [left; reflexivity|].
      intros [H | [H | [H | [H | [H | []]]]]]; discriminate.
    + intros [H | [H | [H | [H | [H | []]]]]]; discriminate.
    + intros Hno. exfalso. exact (Hno o eq_refl).
  - split; [|split].
    + intros name [H | [H | []]]; discriminate.
    + intros _. split; [reflexivity|]. intros name subprotocol o'. split.
      * intros [H | [H | []]]; discriminate.
      * intros [H | [H | []]]; discriminate.
    + intros Hno. exfalso. exact (Hno o eq_refl).
  - unfold originIsAllowed in E. discriminate.
Qed.
